(** * storageImageUpdater: the image download / upload pipeline

    A shallow embedding of [storageImageUpdater.py]: the configuration
    record, [FileUploader.download_image], [FileUploader.upload_file] and
    [ProcessManager.run], together with the parts of the Python library
    they call ([urllib.parse.urlparse], [os.path.basename], [os.path.join],
    [str] on integers).

    Conventions.
    - Python [str] values are [string]; [bytes] values are [list byte].
    - Integer columns of a row ([ProductId], [MediaId], [Order]) are [Z];
      [str(n)] and [f"{n}"] are stdpp's decimal [pretty].
    - The network is an oracle: what the download and each POST attempt
      meet is given by a [Remote] record, one per pipeline.
    - Files are a finite map from paths to contents; the clock is an
      integer number of seconds, advanced by [asyncio.sleep].
    - Whether the file of a download can be opened for writing is part of
      the oracle; a write that fails is a body that breaks.  A file that
      exists can be read; reading a file that does not exist raises.
    - What [to_excel] writes into the workbook is the work of [openpyxl]; it
      is a parameter, [Workbook].
    - The event loop is the one of [asyncio], with answers and timers that
      come in the order in which they were awaited: the tasks of a
      [gather] are started in task order, each runs until it awaits, and
      those that wait are resumed in task order; when a task raises, the
      others are cancelled where they wait.  [upload_file] and its loop are
      given twice: awaited on their own ([upload_file], [attempts]) and as
      coroutines next to others ([upload_file_coroutine],
      [attempts_coroutine]); [run_upload_file_coroutine] shows that the two
      agree.
    - [request_delay] is a float that the source never computes with; it
      is a rational here.
    - Calls to [logging] are left out. *)

From Stdlib Require Import ZArith QArith Lia Ascii String List Strings.Byte.
From stdpp Require Import base tactics option list strings pretty gmap.

Local Open Scope Z_scope.

(** ** Python results *)

(** Exceptions that the modelled code raises or catches.  All of them are
    subclasses of [Exception]. *)
Inductive exn : Type :=
| ValueError          (* urllib.parse: malformed network location *)
| FileNotFoundError   (* open(path, "rb") on a missing file *)
| OSError             (* open(path, "wb") on a path that cannot be created *)
| TimeoutError        (* asyncio.TimeoutError *)
| TransportError.     (* requests / aiohttp connection and protocol errors *)

Inductive pyresult (A : Type) : Type :=
| Returned (a : A)
| Raised (e : exn).
Arguments Returned {A} a.
Arguments Raised {A} e.

(** ** Strings the way Python slices and searches them *)
Module pystr.

Fixpoint take (n : nat) (s : string) : string :=
  match n, s with
  | S n', String c r => String c (take n' r)
  | _, _ => EmptyString
  end.

Fixpoint drop (n : nat) (s : string) : string :=
  match n, s with
  | S n', String _ r => drop n' r
  | _, _ => s
  end.

(** [s.find(c)] for a one-character needle described by a predicate:
    the index of the first character satisfying [p]. *)
Fixpoint find (p : ascii → bool) (s : string) : option nat :=
  match s with
  | EmptyString => None
  | String c r => if p c then Some O else S <$> find p r
  end.

(** [s.find(c, start)]. *)
Definition find_from (p : ascii → bool) (start : nat) (s : string)
  : option nat :=
  (λ i, (start + i)%nat) <$> find p (drop start s).

(** [s.rfind(c)]: the index of the last character satisfying [p]. *)
Fixpoint rfind (p : ascii → bool) (s : string) : option nat :=
  match s with
  | EmptyString => None
  | String c r =>
      match rfind p r with
      | Some i => Some (S i)
      | None => if p c then Some O else None
      end
  end.

Fixpoint all (p : ascii → bool) (s : string) : bool :=
  match s with
  | EmptyString => true
  | String c r => p c && all p r
  end.

Definition contains (p : ascii → bool) (s : string) : bool :=
  negb (all (λ c, negb (p c)) s).

Fixpoint lstrip (p : ascii → bool) (s : string) : string :=
  match s with
  | EmptyString => EmptyString
  | String c r => if p c then lstrip p r else s
  end.

(** [s.replace(c, "")] for every [c] satisfying [p]. *)
Fixpoint remove (p : ascii → bool) (s : string) : string :=
  match s with
  | EmptyString => EmptyString
  | String c r => if p c then remove p r else String c (remove p r)
  end.

Definition char (c : ascii) : ascii → bool := Ascii.eqb c.

Definition code (c : ascii) : nat := nat_of_ascii c.

Definition is_upper (c : ascii) : bool :=
  ((65 <=? code c) && (code c <=? 90))%nat.
Definition is_lower (c : ascii) : bool :=
  ((97 <=? code c) && (code c <=? 122))%nat.
Definition is_digit (c : ascii) : bool :=
  ((48 <=? code c) && (code c <=? 57))%nat.
Definition is_ascii_alpha (c : ascii) : bool := is_upper c || is_lower c.
Definition is_ascii (c : ascii) : bool := (code c <? 128)%nat.

Definition lower_char (c : ascii) : ascii :=
  if is_upper c then ascii_of_nat (code c + 32) else c.

Fixpoint lower (s : string) : string :=
  match s with
  | EmptyString => EmptyString
  | String c r => String (lower_char c) (lower r)
  end.

Definition startswith (pre s : string) : bool := String.prefix pre s.

Fixpoint endswith_char (c : ascii) (s : string) : bool :=
  match s with
  | EmptyString => false
  | String d EmptyString => Ascii.eqb c d
  | String _ r => endswith_char c r
  end.

(** Python truthiness of a [str]: the empty string is false. *)
Definition truthy (s : string) : bool :=
  match s with EmptyString => false | String _ _ => true end.

End pystr.

(** ** [urllib.parse] *)
Module urllib.

(** The two validators of [urllib.parse] whose bodies end in other
    modules ([ipaddress], [unicodedata]); [false] stands for their
    [ValueError].  [check_bracketed_netloc] is consulted only for a network
    location holding both brackets, [checknetloc_nfkc] only for one with a
    character outside ASCII. *)
Class Validators : Type := {
  check_bracketed_netloc : string → bool;
  checknetloc_nfkc : string → bool
}.

Record SplitResult : Type := {
  scheme : string;
  netloc : string;
  path : string;
  query : string;
  fragment : string
}.

(** [_WHATWG_C0_CONTROL_OR_SPACE]: the codes 0 to 32. *)
Definition c0_control_or_space (c : ascii) : bool :=
  (pystr.code c <=? 32)%nat.

(** [_UNSAFE_URL_BYTES_TO_REMOVE]: tab, carriage return, newline. *)
Definition unsafe_url_byte (c : ascii) : bool :=
  ((pystr.code c =? 9) || (pystr.code c =? 13) || (pystr.code c =? 10))%nat.

(** [scheme_chars]: letters, digits, [+], [-] and [.]. *)
Definition scheme_char (c : ascii) : bool :=
  pystr.is_ascii_alpha c || pystr.is_digit c
  || pystr.char "+" c || pystr.char "-" c || pystr.char "." c.

Definition uses_params : list string :=
  [ ""; "ftp"; "hdl"; "prospero"; "http"; "imap"; "https"; "shttp"; "rtsp";
    "rtspu"; "sip"; "sips"; "mms"; "sftp"; "tel" ].

Definition netloc_delim (c : ascii) : bool :=
  pystr.char "/" c || pystr.char "?" c || pystr.char "#" c.

(** [_splitnetloc(url, 2)]: the text between the leading [//] and the
    earliest of [/], [?], [#]; and the rest from that delimiter on. *)
Definition splitnetloc (url : string) : string * string :=
  match pystr.find_from netloc_delim 2 url with
  | Some delim => (pystr.drop 2 (pystr.take delim url), pystr.drop delim url)
  | None => (pystr.drop 2 url, "")
  end.

(** [s.split(c, 1)]: the parts before and after the first [c]. *)
Definition split_once (c : ascii) (s : string) : string * string :=
  match pystr.find (pystr.char c) s with
  | Some i => (pystr.take i s, pystr.drop (S i) s)
  | None => (s, "")
  end.

(** The scheme prefix test of [urlsplit]: [i = url.find(':')], a first
    character that is an ASCII letter, and only scheme characters before
    the colon. *)
Definition split_scheme (url : string) : string * string :=
  match pystr.find (pystr.char ":") url, url with
  | Some (S i), String c _ =>
      if pystr.is_ascii c && pystr.is_ascii_alpha c
         && pystr.all scheme_char (pystr.take (S i) url)
      then (pystr.lower (pystr.take (S i) url), pystr.drop (S (S i)) url)
      else ("", url)
  | _, _ => ("", url)
  end.

Definition checknetloc `{Validators} (netloc : string) : bool :=
  if negb (pystr.truthy netloc) || pystr.all pystr.is_ascii netloc
  then true
  else checknetloc_nfkc netloc.

Definition urlsplit `{Validators} (url : string) : pyresult SplitResult :=
  let url := pystr.lstrip c0_control_or_space url in
  let url := pystr.remove unsafe_url_byte url in
  let '(scheme, url) := split_scheme url in
  let '(netloc, url) :=
    if pystr.startswith "//" url then splitnetloc url else ("", url) in
  let has_open := pystr.contains (pystr.char "[") netloc in
  let has_close := pystr.contains (pystr.char "]") netloc in
  if (has_open && negb has_close) || (has_close && negb has_open)
  then Raised ValueError
  else if has_open && has_close && negb (check_bracketed_netloc netloc)
  then Raised ValueError
  else
    let '(url, fragment) := split_once "#" url in
    let '(url, query) := split_once "?" url in
    if checknetloc netloc
    then Returned {| scheme := scheme; netloc := netloc; path := url;
                     query := query; fragment := fragment |}
    else Raised ValueError.

(** [_splitparams(url)[0]]: the path cut at the first [;] of its last
    segment. *)
Definition splitparams (url : string) : string :=
  match pystr.rfind (pystr.char "/") url with
  | Some slash =>
      match pystr.find_from (pystr.char ";") slash url with
      | Some i => pystr.take i url
      | None => url
      end
  | None =>
      match pystr.find (pystr.char ";") url with
      | Some i => pystr.take i url
      | None => url
      end
  end.

(** [urlparse(url).path]. *)
Definition urlparse_path `{Validators} (url : string) : pyresult string :=
  match urlsplit url with
  | Raised e => Raised e
  | Returned r =>
      if bool_decide (scheme r ∈ uses_params)
         && pystr.contains (pystr.char ";") (path r)
      then Returned (splitparams (path r))
      else Returned (path r)
  end.

(** Validators that accept every network location. *)
Definition lenient : Validators :=
  {| check_bracketed_netloc := λ _, true; checknetloc_nfkc := λ _, true |}.

End urllib.

(** ** [os.path] (the POSIX flavour) *)
Module os_path.

(** [basename(p)]: [p[p.rfind("/") + 1:]]. *)
Definition basename (p : string) : string :=
  match pystr.rfind (pystr.char "/") p with
  | Some i => pystr.drop (S i) p
  | None => p
  end.

(** [join(a, b)] for two components. *)
Definition join (a b : string) : string :=
  if pystr.startswith "/" b then b
  else if negb (pystr.truthy a) || pystr.endswith_char "/" a then a +:+ b
  else a +:+ "/" +:+ b.

End os_path.

(** ** Data model *)

Abbreviation bytes := (list byte) (only parsing).

(** One row of the query result; of its sixteen columns these are the ones
    the pipeline reads. *)
Record Row : Type := {
  ProductId : Z;
  MediaId : Z;
  URL : string;
  Order : Z;
  MediaResourceId : string;
  ContentType : string
}.

Abbreviation DataFrame := (list Row).

(** A field of an [aiohttp.FormData].  The [Date] field is the text of an
    ISO-8601 timestamp; it is kept as the instant it denotes. *)
Inductive part : Type :=
| FilePart (name : string) (content : bytes) (filename : string)
           (content_type : string)
| TextPart (name : string) (value : string)
| DatePart (name : string) (instant : Z).

Abbreviation FormData := (list part).

Abbreviation Headers := (list (string * string)).

(** What the program does to the outside world, in program order.  An
    [HttpPost] event is the call [session.post(url, headers, data)]. *)
Inductive event : Type :=
| HttpGet (url : string)
| OpenWrite (file_path : string)
| WriteChunk (file_path : string) (chunk : bytes)
| UtcNow (t : Z)
| ReadFile (file_path : string)
| HttpPost (url : string) (headers : Headers) (data : FormData)
| Sleep (seconds : Z)
| ToExcel (file : string) (df : DataFrame)
| DbClose.

Record World : Type := {
  clock : Z;
  files : gmap string bytes;
  trace : list event
}.

Definition log (e : event) (w : World) : World :=
  {| clock := clock w; files := files w; trace := trace w ++ [e] |}.

Definition set_files (f : gmap string bytes) (w : World) : World :=
  {| clock := clock w; files := f; trace := trace w |}.

Definition advance (d : Z) (w : World) : World :=
  {| clock := clock w + d; files := files w; trace := trace w |}.

(** ** The network oracle *)

(** What the [try] block of [download_image] meets.
    - [GetRaised]: [requests.get(url, stream=True)] raises.
    - [GetResponse status_code chunks complete]: a response arrives; when
      its status is 200 the file opens, [chunks] are read from
      [iter_content] and written, and then the body either ends
      ([complete = true]) or [iter_content] or [file.write] raises
      ([complete = false]).
    - [GetUnwritable]: a response with status 200 arrives and
      [open(file_path, 'wb')] raises (a name too long for the file system,
      a directory that is gone, a path that may not be written). *)
Inductive get_result : Type :=
| GetRaised
| GetResponse (status_code : Z) (chunks : list bytes) (complete : bool)
| GetUnwritable.

(** What one [session.post] with [response.text()] does: both complete, the
    ten second timeout fires, or anything else is raised. *)
Inductive post_result : Type :=
| PostResponse (status : Z) (text : string)
| PostTimeout
| PostRaised.

(** What one pipeline meets: one download, and a POST per attempt number. *)
Record Remote : Type := {
  on_get : get_result;
  on_post : nat → post_result
}.

(** ** Computations: state and exceptions *)

Definition M (A : Type) : Type := World → pyresult A * World.

Global Instance M_ret : MRet M := λ A a w, (Returned a, w).

Global Instance M_bind : MBind M := λ A B f m w,
  match m w with
  | (Returned a, w') => f a w'
  | (Raised e, w') => (Raised e, w')
  end.

Definition raise {A} (e : exn) : M A := λ w, (Raised e, w).

(** [try: body / except Exception: handler]. *)
Definition try_except {A} (body : M A) (handler : exn → M A) : M A := λ w,
  match body w with
  | (Returned a, w') => (Returned a, w')
  | (Raised e, w') => handler e w'
  end.

Definition lift {A} (r : pyresult A) : M A := λ w, (r, w).

Definition emit (e : event) : M unit := λ w, (Returned (), log e w).

(** Unfolds the monad operations in a goal. *)
Ltac unfold_m :=
  unfold mbind, M_bind, mret, M_ret, try_except, raise, lift, emit.

(** ** [asyncio] *)
Module asyncio.

(** A coroutine runs until it returns, raises or awaits; where it awaits it
    hands control back to the event loop, with the number of seconds it has
    to wait and what is left of it to run. *)
Inductive Coroutine (A : Type) : Type :=
| Co (resume : World → Suspension A)
with Suspension (A : Type) : Type :=
| Finished (result : pyresult A) (w : World)
| Waiting (seconds : Z) (rest : Coroutine A) (w : World).

Arguments Co {A} resume.
Arguments Finished {A} result w.
Arguments Waiting {A} seconds rest w.

Definition resume {A} (c : Coroutine A) : World → Suspension A :=
  match c with Co f => f end.

Global Instance Coroutine_ret : MRet Coroutine := λ A a,
  Co (λ w, Finished (Returned a) w).

Fixpoint bind {A B} (f : A → Coroutine B) (c : Coroutine A) : Coroutine B :=
  match c with
  | Co step =>
      Co (λ w,
        match step w with
        | Finished (Returned a) w' => resume (f a) w'
        | Finished (Raised e) w' => Finished (Raised e) w'
        | Waiting seconds rest w' => Waiting seconds (bind f rest) w'
        end)
  end.

Global Instance Coroutine_bind : MBind Coroutine := @bind.

(** Code that awaits nothing. *)
Definition block {A} (m : M A) : Coroutine A :=
  Co (λ w, let '(result, w') := m w in Finished result w').

(** [try: body / except Exception: handler] around code that awaits. *)
Fixpoint try_except {A} (body : Coroutine A) (handler : exn → Coroutine A)
  : Coroutine A :=
  match body with
  | Co step =>
      Co (λ w,
        match step w with
        | Finished (Returned a) w' => Finished (Returned a) w'
        | Finished (Raised e) w' => resume (handler e) w'
        | Waiting seconds rest w' =>
            Waiting seconds (try_except rest handler) w'
        end)
  end.

(** [await asyncio.sleep(seconds)]. *)
Definition sleep (seconds : Z) : Coroutine unit :=
  Co (λ w, Waiting seconds (mret ()) (log (Sleep seconds) w)).

(** An [await] on the network: the coroutine goes to the back of the queue
    of the loop; the time the answer takes is not counted. *)
Definition suspend : Coroutine unit :=
  Co (λ w, Waiting 0 (mret ()) w).

(** [asyncio.run(c)], or [await c] where nothing else is on the loop: the
    coroutine is resumed as soon as its wait is over. *)
Fixpoint run {A} (c : Coroutine A) (w : World) : pyresult A * World :=
  match c with
  | Co step =>
      match step w with
      | Finished result w' => (result, w')
      | Waiting seconds rest w' => run rest (advance seconds w')
      end
  end.

(** Two tasks on the loop, [c1] ahead of [c2] in its queue.  In one turn
    of the loop each runs up to its next [await]; they are resumed
    together, in the same order, when the shorter wait is over (the
    pipelines of this program always wait the same time).  When one raises,
    the exception goes to whoever awaits the two, and the other, which was
    in the queue of that turn, is cancelled where it next awaits. *)
Fixpoint both {A B} (c1 : Coroutine A) (c2 : Coroutine B) {struct c1}
  : Coroutine (A * B) :=
  match c1 with
  | Co step1 =>
      Co (λ w,
        match step1 w with
        | Finished (Raised e) w1 =>
            match resume c2 w1 with
            | Finished _ w2 | Waiting _ _ w2 => Finished (Raised e) w2
            end
        | Finished (Returned a) w1 => resume (b ← c2; mret (a, b)) w1
        | Waiting seconds1 rest1 w1 =>
            match resume c2 w1 with
            | Finished (Raised e) w2 => Finished (Raised e) w2
            | Finished (Returned b) w2 =>
                Waiting seconds1 (a ← rest1; mret (a, b)) w2
            | Waiting seconds2 rest2 w2 =>
                Waiting (Z.min seconds1 seconds2) (both rest1 rest2) w2
            end
        end)
  end.

(** [asyncio.gather] on a list of tasks, without [return_exceptions]:
    every task is started, in order; the results come in task order once
    every task has returned; the first exception of a task is raised at
    once. *)
Fixpoint gather {A} (tasks : list (Coroutine A)) : Coroutine (list A) :=
  match tasks with
  | [] => mret []
  | task :: rest =>
      '(result, results) ← both task (gather rest);
      mret (result :: results)
  end.

(** What holds of a coroutine however it is scheduled: each of its turns
    takes the world to one that [P] relates to it, and its result
    satisfies [Q]. *)
Fixpoint always {A} (P : World → World → Prop) (Q : pyresult A → Prop)
    (c : Coroutine A) : Prop :=
  match c with
  | Co step =>
      ∀ w,
        match step w with
        | Finished result w' => P w w' ∧ Q result
        | Waiting _ rest w' => P w w' ∧ always P Q rest
        end
  end.

(** The world in which a coroutine started in [w] first hands control
    back. *)
Definition first_turn {A} (c : Coroutine A) (w : World) : World :=
  match resume c w with
  | Finished _ w' | Waiting _ _ w' => w'
  end.

End asyncio.

(** ** Configuration *)
Module ConfigLoader.

Record t : Type := {
  db_server : string;
  db_database : string;
  db_username : string;
  db_password : string;
  upload_url : string;
  api_key : string;
  request_delay : Q;
  image_download_path : string
}.

Definition with_request_delay (d : Q) (c : t) : t :=
  {| db_server := db_server c; db_database := db_database c;
     db_username := db_username c; db_password := db_password c;
     upload_url := upload_url c; api_key := api_key c;
     request_delay := d;
     image_download_path := image_download_path c |}.

End ConfigLoader.

(** ** [FileUploader] *)
Module FileUploader.

Record t : Type := {
  upload_url : string;
  api_key : string;
  request_delay : Q;
  image_download_path : string;
  max_retries : nat
}.

(** [FileUploader.__init__]. *)
Definition init (config : ConfigLoader.t) : t :=
  {| upload_url := ConfigLoader.upload_url config;
     api_key := ConfigLoader.api_key config;
     request_delay := ConfigLoader.request_delay config;
     image_download_path := ConfigLoader.image_download_path config;
     max_retries := 3 |}.

Record Response : Type := {
  status_code : Z;
  body : list bytes;
  complete : bool
}.

(** [requests.get(url, stream=True)]. *)
Definition requests_get (R : Remote) (url : string) : M Response := λ w,
  match on_get R with
  | GetRaised => (Raised TransportError, log (HttpGet url) w)
  | GetResponse code chunks ok =>
      (Returned {| status_code := code; body := chunks; complete := ok |},
       log (HttpGet url) w)
  | GetUnwritable =>
      (Returned {| status_code := 200; body := []; complete := true |},
       log (HttpGet url) w)
  end.

(** [open(file_path, 'wb')]: the file is created, or emptied; or the call
    raises and leaves the disk as it is. *)
Definition open_wb (R : Remote) (file_path : string) : M unit := λ w,
  match on_get R with
  | GetUnwritable => (Raised OSError, w)
  | _ =>
      (Returned (),
       log (OpenWrite file_path) (set_files (<[file_path := []]> (files w)) w))
  end.

(** [file.write(chunk)]. *)
Definition file_write (file_path : string) (chunk : bytes) : M unit := λ w,
  (Returned (),
   log (WriteChunk file_path chunk)
     (set_files
        (<[file_path := (default [] (files w !! file_path) ++ chunk)%list]>
           (files w)) w)).

(** [for chunk in response.iter_content(1024): file.write(chunk)]. *)
Fixpoint write_chunks (file_path : string) (chunks : list bytes) : M unit :=
  match chunks with
  | [] => mret ()
  | chunk :: rest => file_write file_path chunk;; write_chunks file_path rest
  end.

(** The [with open(...)] block of [download_image]. *)
Definition save_body (R : Remote) (file_path : string) (response : Response)
  : M unit :=
  open_wb R file_path;;
  write_chunks file_path (body response);;
  if complete response then mret () else raise TransportError.

(** The name given to the downloaded file. *)
Definition new_filename (product_id media_id : Z) (original_filename : string)
  : string :=
  pretty product_id +:+ "_" +:+ pretty media_id +:+ "_" +:+ original_filename.

Section with_validators.
Context `{urllib.Validators}.

(** The first two lines of [download_image]. *)
Definition derive_filename (url : string) (product_id media_id : Z)
  : pyresult string :=
  match urllib.urlparse_path url with
  | Raised e => Raised e
  | Returned p =>
      Returned (new_filename product_id media_id (os_path.basename p))
  end.

(** [download_image]: [Some (file_path, new_filename)] or [None] for the
    pair [(None, None)]. *)
Definition download_image (self : t) (R : Remote)
    (url : string) (product_id media_id : Z) : M (option (string * string)) :=
  new_filename ← lift (derive_filename url product_id media_id);
  let file_path := os_path.join (image_download_path self) new_filename in
  try_except
    (response ← requests_get R url;
     if status_code response =? 200
     then save_body R file_path response;;
          mret (Some (file_path, new_filename))
     else mret None)
    (λ _, mret None).

(** [datetime.datetime.now(datetime.UTC)]. *)
Definition utcnow : M Z := λ w, (Returned (clock w), log (UtcNow (clock w)) w).

(** [open(file_path, "rb").read()]. *)
Definition read_file (file_path : string) : M bytes := λ w,
  match files w !! file_path with
  | Some content => (Returned content, log (ReadFile file_path) w)
  | None => (Raised FileNotFoundError, w)
  end.

(** [await asyncio.sleep(seconds)]. *)
Definition sleep (seconds : Z) : M unit := λ w,
  (Returned (), log (Sleep seconds) (advance seconds w)).

(** [session.post(...)] followed by [response.text()], for attempt
    number [attempt]. *)
Definition session_post (R : Remote) (attempt : nat)
    (url : string) (headers : Headers) (data : FormData) : M (Z * string) := λ w,
  match on_post R attempt with
  | PostResponse status text =>
      (Returned (status, text), log (HttpPost url headers data) w)
  | PostTimeout => (Raised TimeoutError, log (HttpPost url headers data) w)
  | PostRaised => (Raised TransportError, log (HttpPost url headers data) w)
  end.

(** The triple [upload_file] returns: status, message, response text. *)
Definition outcome : Type := string * string * string.

Definition download_failed : outcome :=
  ("Error", "Failed to download image", "").
Definition uploaded (response_text : string) : outcome :=
  ("Success", "Uploaded successfully", response_text).
Definition max_retries_reached : outcome :=
  ("Error", "Max retries reached", "").

(** [2 ** attempt]. *)
Definition backoff (attempt : nat) : Z := 2 ^ Z.of_nat attempt.

(** The loop [for attempt in range(self.max_retries)], entered at
    [attempt] with [remaining] iterations to go. *)
Fixpoint attempts (self : t) (R : Remote) (headers : Headers)
    (form : FormData) (remaining attempt : nat) : M outcome :=
  match remaining with
  | O => mret max_retries_reached
  | S remaining' =>
      returned ←
        try_except
          ('(status, response_text) ←
              session_post R attempt (upload_url self) headers form;
           if status =? 200
           then mret (Some (uploaded response_text))
           else sleep (backoff attempt);; mret None)
          (λ e,
             match e with
             | TimeoutError => sleep (backoff attempt);; mret None
             | _ => sleep (backoff attempt);; mret None
             end);
      match returned with
      | Some result => mret result
      | None => attempts self R headers form remaining' (S attempt)
      end
  end.

(** The form built once [download_image] has returned a path. *)
Definition build_form (row : Row) (content : bytes) (file_name : string)
    (current_date : Z) : FormData :=
  [ FilePart "FormFile" content file_name (ContentType row);
    TextPart "TenantId" "2";
    TextPart "EntityType" "product";
    TextPart "EntityId" (pretty (ProductId row));
    TextPart "MediaResourceId" (MediaResourceId row);
    TextPart "Order" (pretty (Order row));
    TextPart "InternalCode" (pretty (ProductId row));
    TextPart "MediaType" "image";
    DatePart "Date" current_date ].

Definition build_headers (self : t) : Headers :=
  [ ("Accept", "application/json"); ("api-key", api_key self) ].

(** [upload_file], awaited to its end. *)
Definition upload_file (self : t) (R : Remote) (row : Row) : M outcome :=
  downloaded ← download_image self R (URL row) (ProductId row) (MediaId row);
  match downloaded with
  | None => mret download_failed
  | Some (file_path, file_name) =>
      if negb (pystr.truthy file_path) then mret download_failed
      else
        current_date ← utcnow;
        content ← read_file file_path;
        let form := build_form row content file_name current_date in
        let headers := build_headers self in
        attempts self R headers form (max_retries self) 0
  end.

(** [session.post(...)] with [response.text()] next to other coroutines:
    the first thing the call awaits is its connection, and the request is
    made once the loop hands control back. *)
Definition await_post (R : Remote) (attempt : nat)
    (url : string) (headers : Headers) (data : FormData)
  : asyncio.Coroutine (Z * string) :=
  asyncio.suspend;;
  asyncio.block (session_post R attempt url headers data).

(** The loop of [upload_file] next to other coroutines: it hands control
    back where it awaits the answer to a POST and where it sleeps. *)
Fixpoint attempts_coroutine (self : t) (R : Remote) (headers : Headers)
    (form : FormData) (remaining attempt : nat) : asyncio.Coroutine outcome :=
  match remaining with
  | O => mret max_retries_reached
  | S remaining' =>
      returned ←
        asyncio.try_except
          ('(status, response_text) ←
              await_post R attempt (upload_url self) headers form;
           if status =? 200
           then mret (Some (uploaded response_text))
           else asyncio.sleep (backoff attempt);; mret None)
          (λ e,
             match e with
             | TimeoutError => asyncio.sleep (backoff attempt);; mret None
             | _ => asyncio.sleep (backoff attempt);; mret None
             end);
      match returned with
      | Some result => mret result
      | None => attempts_coroutine self R headers form remaining' (S attempt)
      end
  end.

(** [upload_file] next to other coroutines: the download, which awaits
    nothing, then the loop. *)
Definition upload_file_coroutine (self : t) (R : Remote) (row : Row)
  : asyncio.Coroutine outcome :=
  downloaded ←
    asyncio.block
      (download_image self R (URL row) (ProductId row) (MediaId row));
  match downloaded with
  | None => mret download_failed
  | Some (file_path, file_name) =>
      if negb (pystr.truthy file_path) then mret download_failed
      else
        current_date ← asyncio.block utcnow;
        content ← asyncio.block (read_file file_path);
        let form := build_form row content file_name current_date in
        let headers := build_headers self in
        attempts_coroutine self R headers form (max_retries self) 0
  end.

End with_validators.

End FileUploader.

(** ** [pandas] *)

(** What [DataFrame.to_excel] with the [openpyxl] engine puts into the file
    it writes: the bytes of the workbook of a table. *)
Class Workbook : Type := {
  xlsx : DataFrame → bytes
}.

(** ** [ProcessManager] *)
Module ProcessManager.

(** [db] stands for the rows the query returns. *)
Record t : Type := {
  config : ConfigLoader.t;
  db : DataFrame;
  uploader : FileUploader.t
}.

(** [ProcessManager.__init__]. *)
Definition init (config : ConfigLoader.t) (table : DataFrame) : t :=
  {| config := config; db := table; uploader := FileUploader.init config |}.

(** [await asyncio.gather] on the list of tasks, in [run], which is the
    only coroutine that [asyncio.run] is given: the results in task order,
    or the first exception of a task. *)
Definition gather {A} (tasks : list (asyncio.Coroutine A)) : M (list A) :=
  asyncio.run (asyncio.gather tasks).

Section with_validators.
Context `{urllib.Validators} `{Workbook}.

(** The list [tasks] of [run]; record [i] talks to [remotes i]. *)
Definition tasks (self : t) (remotes : nat → Remote) (df : DataFrame)
  : list (asyncio.Coroutine FileUploader.outcome) :=
  imap (λ i row,
          FileUploader.upload_file_coroutine (uploader self) (remotes i) row)
    df.

(** [df.to_excel(file, index=False, engine="openpyxl")]: the file is
    created, or replaced, with the workbook of the table. *)
Definition to_excel (file : string) (df : DataFrame) : M unit := λ w,
  (Returned (),
   log (ToExcel file df) (set_files (<[file := xlsx df]> (files w)) w)).

Definition cleanup : M unit := emit DbClose.

(** [run], up to and including the [await asyncio.gather]. *)
Definition collect (self : t) (remotes : nat → Remote)
  : M (list FileUploader.outcome) :=
  gather (tasks self remotes (db self)).

(** [run]. *)
Definition run (self : t) (remotes : nat → Remote) : M unit :=
  let df := db self in
  results ← collect self remotes;
  to_excel "output.xlsx" df;;
  cleanup.

End with_validators.

End ProcessManager.

(** * Vocabulary of the properties *)

Section vocabulary.
Import FileUploader.

Definition is_digit_or_dash (c : ascii) : bool :=
  pystr.is_digit c || pystr.char "-" c.

(** The forms handed to [session.post], in call order. *)
Definition posts (tr : list event) : list FormData :=
  omap (λ e, match e with HttpPost _ _ data => Some data | _ => None end) tr.

(** The arguments of [asyncio.sleep], in call order. *)
Definition sleeps (tr : list event) : list Z :=
  omap (λ e, match e with Sleep d => Some d | _ => None end) tr.

(** The URLs handed to [requests.get]. *)
Definition gets (tr : list event) : list string :=
  omap (λ e, match e with HttpGet url => Some url | _ => None end) tr.

(** The paths opened for reading. *)
Definition reads (tr : list event) : list string :=
  omap (λ e, match e with ReadFile p => Some p | _ => None end) tr.

(** The readings of the clock. *)
Definition clock_reads (tr : list event) : list Z :=
  omap (λ e, match e with UtcNow t => Some t | _ => None end) tr.

(** The tables handed to [to_excel]. *)
Definition reports (tr : list event) : list DataFrame :=
  omap (λ e, match e with ToExcel _ df => Some df | _ => None end) tr.

(** The [Date] fields of a form. *)
Definition dates (form : FormData) : list Z :=
  omap (λ p, match p with DatePart _ t => Some t | _ => None end) form.

(** The contents of the file fields of a form. *)
Definition file_contents (form : FormData) : list bytes :=
  omap (λ p, match p with FilePart _ c _ _ => Some c | _ => None end) form.

(** The world once a response body has been streamed to [file_path]. *)
Definition saved (file_path : string) (chunks : list bytes) (w : World)
  : World :=
  {| clock := clock w;
     files := <[file_path := concat chunks]> (files w);
     trace := trace w ++ OpenWrite file_path :: (WriteChunk file_path <$> chunks) |}.

(** The path [download_image] writes to. *)
Definition file_path_of (self : t) (name : string) : string :=
  os_path.join (image_download_path self) name.

(** The response text of a POST that answered 200. *)
Definition post_body (r : post_result) : option string :=
  match r with
  | PostResponse status text => if status =? 200 then Some text else None
  | _ => None
  end.

Definition posted (self : t) (headers : Headers) (form : FormData)
    (w : World) : World :=
  log (HttpPost (upload_url self) headers form) w.

Definition backed_off (attempt : nat) (w : World) : World :=
  log (Sleep (backoff attempt)) (advance (backoff attempt) w).

(** The world after [n] failed iterations starting at [attempt]. *)
Fixpoint failed_rounds (self : t) (headers : Headers) (form : FormData)
    (n attempt : nat) (w : World) : World :=
  match n with
  | O => w
  | S n' =>
      failed_rounds self headers form n' (S attempt)
        (backed_off attempt (posted self headers form w))
  end.

(** The first of the attempts [attempt], ..., [attempt + n - 1] that is
    answered 200, counted from [attempt], with its response text. *)
Fixpoint first_success (R : Remote) (n attempt : nat) : option (nat * string) :=
  match n with
  | O => None
  | S n' =>
      match post_body (on_post R attempt) with
      | Some text => Some (O, text)
      | None => prod_map S id <$> first_success R n' (S attempt)
      end
  end.

(** The events of [n] failed iterations starting at [attempt]. *)
Definition failed_events (self : t) (headers : Headers) (form : FormData)
    (n attempt : nat) : list event :=
  flat_map
    (λ i, [HttpPost (upload_url self) headers form; Sleep (backoff i)])
    (seq attempt n).

(** The world in which the retry loop is entered: the body is on disk,
    the clock has been read once and the file has been read back once. *)
Definition prepared (self : t) (url name : string) (chunks : list bytes)
    (w : World) : World :=
  log (ReadFile (file_path_of self name))
    (log (UtcNow (clock w))
       (saved (file_path_of self name) chunks (log (HttpGet url) w))).

(** An attempt that is not answered 200: another status, the timeout, or
    an exception. *)
Definition attempt_failed (r : post_result) : Prop :=
  match r with
  | PostResponse status _ => status ≠ 200
  | PostTimeout | PostRaised => True
  end.

(** A download that does not end with the whole body of a 200 response
    on disk: the GET raises or answers another status, the file cannot be
    opened, or the body breaks while it is streamed and written. *)
Definition fetch_failed (g : get_result) : Prop :=
  match g with
  | GetRaised | GetUnwritable => True
  | GetResponse code _ ok => code ≠ 200 ∨ ok = false
  end.

(** The events of a successful download followed by the building of the
    form. *)
Definition prepare_events (self : t) (url name : string) (chunks : list bytes)
    (now : Z) : list event :=
  HttpGet url :: OpenWrite (file_path_of self name)
  :: (WriteChunk (file_path_of self name) <$> chunks)
  ++ [UtcNow now; ReadFile (file_path_of self name)].

(** The [Date] carried by each post, in call order. *)
Definition post_dates (tr : list event) : list Z :=
  posts tr ≫= dates.

(** Each element is strictly later than the one before it. *)
Definition each_later (ts : list Z) : Prop :=
  ∀ i a b, ts !! i = Some a → ts !! S i = Some b → a < b.

End vocabulary.

(** ** Concrete runs used to exercise the properties *)
Module Scenario.

Definition config0 : ConfigLoader.t :=
  {| ConfigLoader.db_server := "sql01";
     ConfigLoader.db_database := "catalog";
     ConfigLoader.db_username := "reader";
     ConfigLoader.db_password := "secret";
     ConfigLoader.upload_url := "https://media.example/upload";
     ConfigLoader.api_key := "key-1";
     ConfigLoader.request_delay := (1 # 1)%Q;
     ConfigLoader.image_download_path := "images" |}.

Definition row1 : Row :=
  {| ProductId := 1; MediaId := 9; URL := "http://x/a.png"; Order := 0;
     MediaResourceId := "r1"; ContentType := "image/png" |}.

Definition row2 : Row :=
  {| ProductId := 1; MediaId := 10; URL := "http://y/a.png"; Order := 1;
     MediaResourceId := "r1"; ContentType := "image/png" |}.

(** A row whose URL has an unmatched bracket in its network location. *)
Definition row_bad : Row :=
  {| ProductId := 2; MediaId := 11; URL := "http://[::1/a.png"; Order := 0;
     MediaResourceId := "r1"; ContentType := "image/png" |}.

Definition png : bytes := [x89; x50; x4e; x47].

Definition w0 : World := {| clock := 100; files := ∅; trace := [] |}.

(** The image is served and the first POST is answered 200. *)
Definition R_ok : Remote :=
  {| on_get := GetResponse 200 [png] true;
     on_post := λ _, PostResponse 200 "{'id': 42}" |}.

(** The image is not found. *)
Definition R_404 : Remote :=
  {| on_get := GetResponse 404 [] true;
     on_post := λ _, PostResponse 200 "{'id': 42}" |}.

(** The image is served and every POST is answered 500. *)
Definition R_500 : Remote :=
  {| on_get := GetResponse 200 [png] true;
     on_post := λ _, PostResponse 500 "unavailable" |}.

(** The image is served; the first POST is answered 500 and the later
    ones raise. *)
Definition R_retry : Remote :=
  {| on_get := GetResponse 200 [png] true;
     on_post := λ i, match i with
                     | O => PostResponse 500 "unavailable"
                     | _ => PostRaised
                     end |}.

(** The image is served; the first POST times out and the second is
    answered 200. *)
Definition R_second : Remote :=
  {| on_get := GetResponse 200 [png] true;
     on_post := λ i, match i with
                     | O => PostTimeout
                     | _ => PostResponse 200 "{'id': 42}"
                     end |}.

(** The response is a 200 whose body breaks after the first chunk. *)
Definition R_cut : Remote :=
  {| on_get := GetResponse 200 [png] false;
     on_post := λ _, PostResponse 200 "{'id': 42}" |}.

(** A workbook writer for the concrete runs: one byte per row. *)
Definition plain_workbook : Workbook :=
  {| xlsx := λ df, replicate (length df) x00 |}.

(** The form [upload_file] builds for [row1] at time 100. *)
Definition form1 : FormData :=
  FileUploader.build_form row1 png "1_9_a.png" 100.

End Scenario.

(** ** Vocabulary of the further properties *)
Section vocabulary_pipeline.
Context `{urllib.Validators}.
Import FileUploader.

(** Whether [urlparse] accepts a URL. *)
Definition url_parses (url : string) : bool :=
  match urllib.urlparse_path url with
  | Returned _ => true
  | Raised _ => false
  end.

(** The sum of a list of durations. *)
Definition total (durations : list Z) : Z := foldr Z.add 0 durations.

(** The events of the retry loop of [upload_file]. *)
Definition loop_events (self : t) (R : Remote) (headers : Headers)
    (form : FormData) : list event :=
  match first_success R (max_retries self) 0 with
  | Some (k, _) =>
      failed_events self headers form k 0
      ++ [HttpPost (upload_url self) headers form]
  | None => failed_events self headers form (max_retries self) 0
  end.

(** The events one call of [upload_file] adds when the clock reads [now]. *)
Definition pipeline_events (self : t) (R : Remote) (row : Row) (now : Z)
  : list event :=
  match derive_filename (URL row) (ProductId row) (MediaId row) with
  | Raised _ => []
  | Returned name =>
      match on_get R with
      | GetRaised => [HttpGet (URL row)]
      | GetResponse code chunks ok =>
          if code =? 200
          then
            if ok
            then prepare_events self (URL row) name chunks now
                 ++ loop_events self R (build_headers self)
                      (build_form row (concat chunks) name now)
            else HttpGet (URL row)
                 :: OpenWrite (file_path_of self name)
                 :: (WriteChunk (file_path_of self name) <$> chunks)
          else [HttpGet (URL row)]
      | GetUnwritable => [HttpGet (URL row)]
      end
  end.

(** The disk one call of [upload_file] leaves. *)
Definition disk_after (self : t) (R : Remote) (row : Row)
    (disk : gmap string bytes) : gmap string bytes :=
  match derive_filename (URL row) (ProductId row) (MediaId row), on_get R with
  | Returned name, GetResponse code chunks _ =>
      if code =? 200
      then <[file_path_of self name := concat chunks]> disk
      else disk
  | _, _ => disk
  end.

(** The events a pipeline of [row] may add: the GET of its URL, writes and
    the read of its derived path, readings of the clock, posts to the upload
    URL with the two headers, and sleeps. *)
Definition pipeline_event (self : t) (row : Row) (e : event) : Prop :=
  match e with
  | HttpGet url => url = URL row
  | OpenWrite file_path | WriteChunk file_path _ | ReadFile file_path =>
      ∃ name,
        derive_filename (URL row) (ProductId row) (MediaId row) = Returned name
        ∧ file_path = os_path.join (image_download_path self) name
  | HttpPost url headers _ =>
      url = upload_url self
      ∧ headers = [("Accept", "application/json"); ("api-key", api_key self)]
  | UtcNow _ | Sleep _ => True
  | ToExcel _ _ | DbClose => False
  end.

(** What a turn of the event loop may do to the world while the pipelines
    of the table run: it adds events of these pipelines, it keeps every
    file, and it leaves alone every path that is the derived path of no
    row. *)
Definition batch_turn (self : ProcessManager.t) (w w' : World) : Prop :=
  (∃ new,
     trace w' = trace w ++ new
     ∧ Forall (λ e, ∃ row, row ∈ ProcessManager.db self
                           ∧ pipeline_event (ProcessManager.uploader self)
                               row e)
         new)
  ∧ ∀ file_path,
      (is_Some (files w !! file_path) → is_Some (files w' !! file_path))
      ∧ ((∀ row name,
            row ∈ ProcessManager.db self →
            derive_filename (URL row) (ProductId row) (MediaId row)
            = Returned name →
            file_path ≠ file_path_of (ProcessManager.uploader self) name) →
         files w' !! file_path = files w !! file_path).

End vocabulary_pipeline.

(** A world whose disk already holds two files. *)
Definition w_disk : World :=
  {| clock := 100;
     files := {[ "images/1_9_a.png" := [x00]; "notes.txt" := [x01; x02] ]};
     trace := [] |}.

(** * Properties *)

(** ** Decimal text of integers and the derived file name *)
Section filenames.

Lemma app_cons (a : ascii) (s t : string) :
  String a s +:+ t = String a (s +:+ t).
Proof. reflexivity. Qed.

Lemma pretty_N_char_digit (d : N) : pystr.is_digit (pretty_N_char d) = true.
Proof. unfold pretty_N_char. repeat case_match; reflexivity. Qed.

Lemma pretty_N_go_digits (x : N) (s : string) :
  pystr.all is_digit_or_dash s = true →
  pystr.all is_digit_or_dash (pretty_N_go x s) = true.
Proof.
  revert s. induction (N.lt_wf_0 x) as [x _ IH]; intros s Hs.
  destruct (decide (x = 0)%N) as [->|Hx].
  - by rewrite pretty_N_go_0.
  - rewrite pretty_N_go_step by lia. apply IH.
    + apply N.div_lt; lia.
    + simpl. rewrite Hs. unfold is_digit_or_dash.
      by rewrite pretty_N_char_digit.
Qed.

Lemma pretty_N_digits (x : N) : pystr.all is_digit_or_dash (pretty x) = true.
Proof.
  unfold pretty, pretty_N. case_decide; [reflexivity|].
  by apply pretty_N_go_digits.
Qed.

(** [str(n)] is made of digits and at most a leading minus sign. *)
Lemma pretty_Z_digits (z : Z) : pystr.all is_digit_or_dash (pretty z) = true.
Proof.
  destruct z as [|p|p]; unfold pretty, pretty_Z; [reflexivity|..].
  - apply pretty_N_digits.
  - rewrite app_cons. simpl. apply pretty_N_digits.
Qed.

(** Two texts cut at the first separator agree piecewise. *)
Lemma app_sep_inj (sep : ascii) (s1 s2 t1 t2 : string) :
  pystr.contains (pystr.char sep) s1 = false →
  pystr.contains (pystr.char sep) s2 = false →
  s1 +:+ String sep t1 = s2 +:+ String sep t2 →
  s1 = s2 ∧ t1 = t2.
Proof.
  unfold pystr.contains. rewrite !negb_false_iff.
  revert s2. induction s1 as [|a s1 IH]; intros [|b s2] H1 H2 Heq;
    simpl in H1, H2; rewrite ?app_cons in Heq.
  - by injection Heq.
  - injection Heq as -> _. apply andb_prop in H2 as [H2 _].
    unfold pystr.char in H2. by rewrite Ascii.eqb_refl in H2.
  - injection Heq as -> _. apply andb_prop in H1 as [H1 _].
    unfold pystr.char in H1. by rewrite Ascii.eqb_refl in H1.
  - injection Heq as -> Heq.
    apply andb_prop in H1 as [_ H1]. apply andb_prop in H2 as [_ H2].
    destruct (IH s2 H1 H2 Heq) as [-> ->]. done.
Qed.

Lemma digits_no_underscore (s : string) :
  pystr.all is_digit_or_dash s = true →
  pystr.contains (pystr.char "_") s = false.
Proof.
  unfold pystr.contains. rewrite negb_false_iff.
  induction s as [|a s IH]; [done|].
  cbn [pystr.all]. intros [Ha Hs]%andb_prop.
  rewrite (IH Hs), andb_true_r.
  unfold pystr.char. destruct (Ascii.eqb "_" a) eqn:E; [|done].
  apply Ascii.eqb_eq in E. subst a. discriminate Ha.
Qed.

(** The name determines the two identifiers and the original base name. *)
Lemma new_filename_inj (p1 m1 p2 m2 : Z) (b1 b2 : string) :
  FileUploader.new_filename p1 m1 b1 = FileUploader.new_filename p2 m2 b2 →
  p1 = p2 ∧ m1 = m2 ∧ b1 = b2.
Proof.
  unfold FileUploader.new_filename. intros Heq.
  apply app_sep_inj in Heq as [Hp Heq];
    [|by apply digits_no_underscore, pretty_Z_digits..].
  apply app_sep_inj in Heq as [Hm Heq];
    [|by apply digits_no_underscore, pretty_Z_digits..].
  by apply (inj pretty) in Hp, Hm.
Qed.

End filenames.

(** ** The steps of one pipeline *)
Section pipeline.
Context `{urllib.Validators}.
Import FileUploader.

Lemma write_chunks_run (file_path : string) (chunks : list bytes) :
  ∀ (w : World) (acc : bytes),
    files w !! file_path = Some acc →
    write_chunks file_path chunks w =
    (Returned (),
     {| clock := clock w;
        files := <[file_path := (acc ++ concat chunks)%list]> (files w);
        trace := trace w ++ (WriteChunk file_path <$> chunks) |}).
Proof.
  induction chunks as [|chunk rest IH]; intros w acc Hacc.
  - unfold_m. simpl. destruct w as [c f t]; simpl in *.
    by rewrite !app_nil_r, insert_id.
  - cbn [write_chunks]. unfold mbind, M_bind.
    unfold file_write at 1. rewrite Hacc. cbn [default].
    erewrite IH; [|by apply lookup_insert_eq].
    simpl. f_equal. f_equal.
    + by rewrite insert_insert_eq, <-app_assoc.
    + by rewrite <-app_assoc.
Qed.

Lemma save_body_run (R : Remote) (file_path : string) (response : Response)
    (w : World) :
  on_get R ≠ GetUnwritable →
  save_body R file_path response w =
  (if complete response then Returned () else Raised TransportError,
   saved file_path (body response) w).
Proof.
  intros Hopen. unfold save_body, mbind, M_bind.
  assert (open_wb R file_path w
          = (Returned (),
             log (OpenWrite file_path)
               (set_files (<[file_path := []]> (files w)) w))) as ->.
  { unfold open_wb. by destruct (on_get R). }
  erewrite write_chunks_run; [|by apply lookup_insert_eq].
  unfold saved. simpl. rewrite insert_insert_eq, <-app_assoc. simpl.
  by destruct (complete response).
Qed.

Lemma save_body_unwritable (R : Remote) (file_path : string)
    (response : Response) (w : World) :
  on_get R = GetUnwritable →
  save_body R file_path response w = (Raised OSError, w).
Proof.
  intros Hopen. unfold save_body, mbind, M_bind, open_wb. by rewrite Hopen.
Qed.

Lemma truthy_app_r (s t : string) :
  pystr.truthy t = true → pystr.truthy (s +:+ t) = true.
Proof. by destruct s. Qed.

Lemma new_filename_truthy (p m : Z) (b : string) :
  pystr.truthy (new_filename p m b) = true.
Proof. unfold new_filename. by apply truthy_app_r. Qed.

Lemma join_truthy (a b : string) :
  pystr.truthy b = true → pystr.truthy (os_path.join a b) = true.
Proof.
  intros Hb. unfold os_path.join. repeat case_match; try done.
  - by apply truthy_app_r.
  - by apply truthy_app_r, truthy_app_r.
Qed.

(** [download_image], case by case. *)
Lemma download_image_run (self : t) (R : Remote) (url : string)
    (pid mid : Z) (name : string) (w : World) :
  derive_filename url pid mid = Returned name →
  download_image self R url pid mid w =
  match on_get R with
  | GetRaised | GetUnwritable => (Returned None, log (HttpGet url) w)
  | GetResponse code chunks ok =>
      if code =? 200
      then (if ok then Returned (Some (file_path_of self name, name))
            else Returned None,
            saved (file_path_of self name) chunks (log (HttpGet url) w))
      else (Returned None, log (HttpGet url) w)
  end.
Proof.
  intros Hname. unfold download_image. unfold_m. rewrite Hname.
  unfold requests_get. destruct (on_get R) as [|code chunks ok|] eqn:Hget.
  - done.
  - cbn [status_code]. destruct (code =? 200); [|done].
    rewrite save_body_run by (by rewrite Hget).
    cbn [complete body]. by destruct ok.
  - cbn [status_code]. change (200 =? 200) with true. cbv beta iota.
    by rewrite save_body_unwritable.
Qed.

Lemma download_image_raises (self : t) (R : Remote) (url : string)
    (pid mid : Z) (e : exn) (w : World) :
  derive_filename url pid mid = Raised e →
  download_image self R url pid mid w = (Raised e, w).
Proof. intros He. unfold download_image. unfold_m. by rewrite He. Qed.

(** *** The retry loop *)

Lemma attempts_failed_step (self : t) (R : Remote) (headers : Headers)
    (form : FormData) (n attempt : nat) (w : World) :
  post_body (on_post R attempt) = None →
  attempts self R headers form (S n) attempt w =
  attempts self R headers form n (S attempt)
    (backed_off attempt (posted self headers form w)).
Proof.
  intros Hfail. cbn [attempts]. unfold_m. unfold session_post, sleep.
  destruct (on_post R attempt) as [status text| |]; simpl in *; try done.
  by destruct (status =? 200).
Qed.

Lemma attempts_success_step (self : t) (R : Remote) (headers : Headers)
    (form : FormData) (n attempt : nat) (text : string) (w : World) :
  post_body (on_post R attempt) = Some text →
  attempts self R headers form (S n) attempt w =
  (Returned (uploaded text), posted self headers form w).
Proof.
  intros Hok. cbn [attempts]. unfold_m. unfold session_post.
  destruct (on_post R attempt) as [status text'| |]; simpl in *; try done.
  destruct (status =? 200); by simplify_eq.
Qed.

(** The whole loop: it stops at the first 200, and otherwise runs all its
    iterations. *)
Lemma attempts_run (self : t) (R : Remote) (headers : Headers)
    (form : FormData) (n : nat) :
  ∀ (attempt : nat) (w : World),
    attempts self R headers form n attempt w =
    match first_success R n attempt with
    | Some (k, text) =>
        (Returned (uploaded text),
         posted self headers form (failed_rounds self headers form k attempt w))
    | None =>
        (Returned max_retries_reached,
         failed_rounds self headers form n attempt w)
    end.
Proof.
  induction n as [|n IH]; intros attempt w; [done|].
  cbn [first_success].
  destruct (post_body (on_post R attempt)) as [text|] eqn:Hpost.
  - by rewrite (attempts_success_step _ _ _ _ _ _ text).
  - rewrite attempts_failed_step by done. rewrite IH.
    by destruct (first_success R n (S attempt)) as [[k text]|].
Qed.

Lemma failed_rounds_files (self : t) (headers : Headers) (form : FormData)
    (n : nat) :
  ∀ (attempt : nat) (w : World),
    files (failed_rounds self headers form n attempt w) = files w.
Proof. induction n as [|n IH]; intros; [done|]. cbn. by rewrite IH. Qed.

Lemma failed_rounds_trace (self : t) (headers : Headers) (form : FormData)
    (n : nat) :
  ∀ (attempt : nat) (w : World),
    trace (failed_rounds self headers form n attempt w) =
    trace w ++ failed_events self headers form n attempt.
Proof.
  induction n as [|n IH]; intros attempt w.
  - unfold failed_events. simpl. by rewrite app_nil_r.
  - cbn [failed_rounds]. rewrite IH. unfold failed_events. simpl.
    by rewrite <-!app_assoc.
Qed.

Lemma failed_rounds_clock (self : t) (headers : Headers) (form : FormData)
    (n : nat) :
  ∀ (attempt : nat) (w : World),
    clock (failed_rounds self headers form n attempt w) =
    clock w + foldr Z.add 0 (backoff <$> seq attempt n).
Proof.
  induction n as [|n IH]; intros attempt w.
  - simpl. lia.
  - cbn [failed_rounds]. rewrite IH.
    change (clock (backed_off attempt (posted self headers form w)))
      with (clock w + backoff attempt).
    cbn [seq fmap list_fmap foldr].
    generalize (foldr Z.add 0 (backoff <$> seq (S attempt) n)).
    intros; lia.
Qed.

Lemma posts_failed_events (self : t) (headers : Headers) (form : FormData)
    (n attempt : nat) :
  posts (failed_events self headers form n attempt) = replicate n form.
Proof.
  unfold failed_events. revert attempt.
  induction n as [|n IH]; intros attempt; [done|].
  simpl. unfold posts in *. simpl. by rewrite IH.
Qed.

Lemma sleeps_failed_events (self : t) (headers : Headers) (form : FormData)
    (n attempt : nat) :
  sleeps (failed_events self headers form n attempt) =
  backoff <$> seq attempt n.
Proof.
  unfold failed_events. revert attempt.
  induction n as [|n IH]; intros attempt; [done|].
  simpl. unfold sleeps in *. simpl. by rewrite IH.
Qed.

End pipeline.

(** ** [upload_file] as a whole *)
Section upload.
Context `{urllib.Validators}.
Import FileUploader.

Lemma first_success_none (R : Remote) (n : nat) :
  ∀ attempt : nat,
    (∀ i, (i < n)%nat → post_body (on_post R (attempt + i)) = None) →
    first_success R n attempt = None.
Proof.
  induction n as [|n IH]; intros attempt Hfail; [done|].
  cbn [first_success].
  rewrite <-(Nat.add_0_r attempt) at 1. rewrite Hfail by lia.
  rewrite IH; [done|]. intros i Hi.
  replace (S attempt + i)%nat with (attempt + S i)%nat by lia.
  apply Hfail. lia.
Qed.

Lemma first_success_some (R : Remote) (n : nat) :
  ∀ (attempt k : nat) (text : string),
    (k < n)%nat →
    (∀ i, (i < k)%nat → post_body (on_post R (attempt + i)) = None) →
    post_body (on_post R (attempt + k)) = Some text →
    first_success R n attempt = Some (k, text).
Proof.
  induction n as [|n IH]; intros attempt k text Hk Hfail Hok; [lia|].
  cbn [first_success]. destruct k as [|k].
  - rewrite Nat.add_0_r in Hok. by rewrite Hok.
  - rewrite <-(Nat.add_0_r attempt) at 1. rewrite Hfail by lia.
    rewrite (IH (S attempt) k text); [done|lia|..].
    + intros i Hi.
      replace (S attempt + i)%nat with (attempt + S i)%nat by lia.
      apply Hfail. lia.
    + by replace (S attempt + k)%nat with (attempt + S k)%nat by lia.
Qed.

(** [upload_file], case by case on what the GET answers. *)
Lemma upload_file_run (self : t) (R : Remote) (row : Row) (name : string)
    (w : World) :
  derive_filename (URL row) (ProductId row) (MediaId row) = Returned name →
  upload_file self R row w =
  match on_get R with
  | GetRaised | GetUnwritable =>
      (Returned download_failed, log (HttpGet (URL row)) w)
  | GetResponse code chunks ok =>
      if code =? 200
      then
        if ok
        then attempts self R (build_headers self)
               (build_form row (concat chunks) name (clock w))
               (max_retries self) 0
               (prepared self (URL row) name chunks w)
        else (Returned download_failed,
              saved (file_path_of self name) chunks (log (HttpGet (URL row)) w))
      else (Returned download_failed, log (HttpGet (URL row)) w)
  end.
Proof.
  intros Hname. unfold upload_file, mbind, M_bind.
  rewrite (download_image_run _ _ _ _ _ name) by done.
  destruct (on_get R) as [|code chunks ok|]; [done| |done].
  destruct (code =? 200); [|done]. destruct ok; [|done].
  assert (pystr.truthy (file_path_of self name) = true) as ->.
  { apply join_truthy. unfold derive_filename in Hname.
    destruct (urllib.urlparse_path (URL row)); simplify_eq.
    apply new_filename_truthy. }
  cbn [negb]. unfold utcnow at 1. unfold read_file at 1.
  cbn [files log saved clock]. by rewrite lookup_insert_eq.
Qed.

Lemma upload_file_raises (self : t) (R : Remote) (row : Row) (e : exn)
    (w : World) :
  derive_filename (URL row) (ProductId row) (MediaId row) = Raised e →
  upload_file self R row w = (Raised e, w).
Proof.
  intros He. unfold upload_file, mbind, M_bind.
  by rewrite (download_image_raises _ _ _ _ _ e).
Qed.

(** Once the URL has been parsed, nothing [upload_file] does escapes as an
    exception. *)
Lemma upload_file_returns (self : t) (R : Remote) (row : Row) (name : string)
    (w : World) :
  derive_filename (URL row) (ProductId row) (MediaId row) = Returned name →
  ∃ result : outcome, (upload_file self R row w).1 = Returned result.
Proof.
  intros Hname. rewrite (upload_file_run _ _ _ name) by done.
  destruct (on_get R) as [|code chunks ok|]; [by eexists| |by eexists].
  destruct (code =? 200); [|by eexists]. destruct ok; [|by eexists].
  rewrite attempts_run.
  destruct (first_success _ _ _) as [[k text]|]; by eexists.
Qed.

(** [upload_file] only ever adds or overwrites files. *)
Lemma upload_file_keeps_files (self : t) (R : Remote) (row : Row)
    (w : World) (file_path : string) :
  is_Some (files w !! file_path) →
  is_Some (files (upload_file self R row w).2 !! file_path).
Proof.
  intros Hin.
  destruct (derive_filename (URL row) (ProductId row) (MediaId row))
    as [name|e] eqn:Hname.
  2:{ by rewrite (upload_file_raises _ _ _ e). }
  rewrite (upload_file_run _ _ _ name) by done.
  assert (∀ chunks, is_Some
    (files (saved (file_path_of self name) chunks (log (HttpGet (URL row)) w))
       !! file_path)) as Hsaved.
  { intros chunks. cbn [saved files log]. rewrite lookup_insert_is_Some.
    destruct (decide (file_path_of self name = file_path)); auto. }
  destruct (on_get R) as [|code chunks ok|]; [done| |done].
  destruct (code =? 200); [|done]. destruct ok; [|by apply Hsaved].
  rewrite attempts_run.
  destruct (first_success _ _ _) as [[k text]|]; cbn [snd posted log files];
    rewrite failed_rounds_files; apply Hsaved.
Qed.

End upload.

(** ** Coroutines *)
Section coroutines.

Lemma Coroutine_induction {A} (P : asyncio.Coroutine A → Prop) :
  (∀ step,
     (∀ w, match step w with
           | asyncio.Finished _ _ => True
           | asyncio.Waiting _ rest _ => P rest
           end) →
     P (asyncio.Co step)) →
  ∀ c, P c.
Proof.
  intros HCo. fix IH 1. intros [step]. apply HCo. intros w.
  destruct (step w) as [result w'|seconds rest w']; [exact I|apply IH].
Qed.

Lemma always_unfold {A} (P : World → World → Prop) (Q : pyresult A → Prop)
    (c : asyncio.Coroutine A) :
  asyncio.always P Q c ↔
  ∀ w, match asyncio.resume c w with
       | asyncio.Finished result w' => P w w' ∧ Q result
       | asyncio.Waiting _ rest w' => P w w' ∧ asyncio.always P Q rest
       end.
Proof. by destruct c. Qed.

Lemma always_impl {A} (P P' : World → World → Prop)
    (Q Q' : pyresult A → Prop) (c : asyncio.Coroutine A) :
  (∀ w w', P w w' → P' w w') →
  (∀ result, Q result → Q' result) →
  asyncio.always P Q c → asyncio.always P' Q' c.
Proof.
  intros HP HQ. induction c as [step IH] using Coroutine_induction.
  cbn [asyncio.always]. intros Hc w. specialize (Hc w). specialize (IH w).
  destruct (step w) as [result w'|seconds rest w']; destruct Hc; split; auto.
Qed.

Lemma run_unfold {A} (c : asyncio.Coroutine A) (w : World) :
  asyncio.run c w =
  match asyncio.resume c w with
  | asyncio.Finished result w' => (result, w')
  | asyncio.Waiting seconds rest w' => asyncio.run rest (advance seconds w')
  end.
Proof. by destruct c. Qed.

Section relation.
Context (P : World → World → Prop).
Hypothesis P_refl : ∀ w, P w w.
Hypothesis P_trans : ∀ w1 w2 w3, P w1 w2 → P w2 w3 → P w1 w3.

Lemma always_ret {A} (Q : pyresult A → Prop) (a : A) :
  Q (Returned a) → asyncio.always P Q (mret a).
Proof. intros HQ w. by split. Qed.

(** A coroutine that takes over in the middle of a turn. *)
Lemma always_resume {A} (Q : pyresult A → Prop) (c : asyncio.Coroutine A)
    (w0 w : World) :
  P w0 w →
  asyncio.always P Q c →
  match asyncio.resume c w with
  | asyncio.Finished result w' => P w0 w' ∧ Q result
  | asyncio.Waiting _ rest w' => P w0 w' ∧ asyncio.always P Q rest
  end.
Proof.
  intros Hw Hc. pose proof (proj1 (always_unfold P Q c) Hc w) as Hc'.
  clear Hc. rename Hc' into Hc.
  destruct (asyncio.resume c w) as [result w'|seconds rest w'];
    destruct Hc; split; eauto.
Qed.

Lemma always_bind {A B} (Q1 : pyresult A → Prop) (Q : pyresult B → Prop)
    (c : asyncio.Coroutine A) (f : A → asyncio.Coroutine B) :
  asyncio.always P Q1 c →
  (∀ e, Q1 (Raised e) → Q (Raised e)) →
  (∀ a, Q1 (Returned a) → asyncio.always P Q (f a)) →
  asyncio.always P Q (c ≫= f).
Proof.
  intros Hc He Hf. unfold mbind, asyncio.Coroutine_bind.
  induction c as [step IH] using Coroutine_induction.
  cbn [asyncio.always asyncio.bind] in *. intros w.
  specialize (Hc w). specialize (IH w).
  destruct (step w) as [[a|e] w'|seconds rest w'].
  - destruct Hc as [Hw Ha]. by apply always_resume; [|apply Hf].
  - destruct Hc as [Hw Hr]. split; [done|by apply He].
  - destruct Hc as [Hw Hrest]. split; [done|by apply IH].
Qed.

Lemma always_try_except {A} (Q1 Q : pyresult A → Prop)
    (body : asyncio.Coroutine A) (handler : exn → asyncio.Coroutine A) :
  asyncio.always P Q1 body →
  (∀ a, Q1 (Returned a) → Q (Returned a)) →
  (∀ e, Q1 (Raised e) → asyncio.always P Q (handler e)) →
  asyncio.always P Q (asyncio.try_except body handler).
Proof.
  intros Hc Ha Hh.
  induction body as [step IH] using Coroutine_induction.
  cbn [asyncio.always asyncio.try_except] in *. intros w.
  specialize (Hc w). specialize (IH w).
  destruct (step w) as [[a|e] w'|seconds rest w'].
  - destruct Hc as [Hw Hr]. split; [done|by apply Ha].
  - destruct Hc as [Hw Hr]. by apply always_resume; [|apply Hh].
  - destruct Hc as [Hw Hrest]. split; [done|by apply IH].
Qed.

Lemma always_block {A} (Q : pyresult A → Prop) (m : M A) :
  (∀ w, P w (m w).2 ∧ Q (m w).1) →
  asyncio.always P Q (asyncio.block m).
Proof.
  intros Hm w. specialize (Hm w). by destruct (m w) as [result w'].
Qed.

Lemma always_sleep (Q : pyresult unit → Prop) (seconds : Z) :
  (∀ w, P w (log (Sleep seconds) w)) →
  Q (Returned ()) →
  asyncio.always P Q (asyncio.sleep seconds).
Proof. intros Hlog HQ w. split; [done|]. by apply always_ret. Qed.

Lemma always_suspend (Q : pyresult unit → Prop) :
  Q (Returned ()) → asyncio.always P Q asyncio.suspend.
Proof. intros HQ w. split; [done|]. by apply always_ret. Qed.

(** Two tasks on the loop: the turns are turns of the one then of the
    other; a pair of results is a result of each, an exception is the
    exception of one of them. *)
Lemma always_both {A B} (Q1 : pyresult A → Prop) (Q2 : pyresult B → Prop)
    (c1 : asyncio.Coroutine A) :
  ∀ c2 : asyncio.Coroutine B,
    asyncio.always P Q1 c1 →
    asyncio.always P Q2 c2 →
    asyncio.always P
      (λ result,
         match result with
         | Returned (a, b) => Q1 (Returned a) ∧ Q2 (Returned b)
         | Raised e => Q1 (Raised e) ∨ Q2 (Raised e)
         end)
      (asyncio.both c1 c2).
Proof.
  induction c1 as [step1 IH] using Coroutine_induction. intros c2 H1 H2.
  cbn [asyncio.always asyncio.both] in *. intros w.
  specialize (H1 w). specialize (IH w).
  destruct (step1 w) as [[a|e] w1|seconds1 rest1 w1].
  - destruct H1 as [Hw Ha].
    apply always_resume; [done|].
    apply (always_bind Q2); [done|by right|].
    intros b Hb. by apply always_ret.
  - destruct H1 as [Hw He].
    pose proof (always_resume Q2 c2 w w1 Hw H2) as Hc2.
    destruct (asyncio.resume c2 w1) as [result w2|seconds2 rest2 w2];
      destruct Hc2; split; auto.
  - destruct H1 as [Hw Hrest1].
    pose proof (always_resume Q2 c2 w w1 Hw H2) as Hc2.
    destruct (asyncio.resume c2 w1) as [[b|e] w2|seconds2 rest2 w2];
      destruct Hc2 as [Hw2 Hc2]; (split; [done|]).
    + apply (always_bind Q1); [done|by left|].
      intros a Ha. by apply always_ret.
    + by right.
    + by apply IH.
Qed.

(** The tasks of a [gather]: the results are one per task, in task order,
    each a result of its task; an exception is the exception of a task. *)
Lemma always_gather {A} (tasks : list (asyncio.Coroutine A)) :
  ∀ Q : nat → pyresult A → Prop,
    (∀ i task, tasks !! i = Some task → asyncio.always P (Q i) task) →
    asyncio.always P
      (λ result,
         match result with
         | Returned results =>
             length results = length tasks
             ∧ ∀ i a, results !! i = Some a → Q i (Returned a)
         | Raised e => ∃ i, is_Some (tasks !! i) ∧ Q i (Raised e)
         end)
      (asyncio.gather tasks).
Proof.
  induction tasks as [|task rest IH]; intros Q Htasks; cbn [asyncio.gather].
  - apply always_ret. split; [done|]. by intros i a.
  - eapply always_bind.
    + apply always_both; [by apply (Htasks 0%nat)|].
      apply (IH (λ i, Q (S i))). intros i t Hi. by apply (Htasks (S i)).
    + intros e [He|(i & Hi & He)].
      * exists 0%nat. split; [by eexists|done].
      * exists (S i). by split.
    + intros [a results] [Ha [Hlen Hresults]]. apply always_ret. split.
      * simpl. by rewrite Hlen.
      * intros [|i] a' Hi; simpl in Hi; [by simplify_eq|by apply Hresults].
Qed.

(** What holds of every turn holds of the run, when waiting keeps it. *)
Lemma run_always {A} (Q : pyresult A → Prop) (c : asyncio.Coroutine A) :
  (∀ seconds w, P w (advance seconds w)) →
  asyncio.always P Q c →
  ∀ w, P w (asyncio.run c w).2 ∧ Q (asyncio.run c w).1.
Proof.
  intros Hwait. induction c as [step IH] using Coroutine_induction.
  cbn [asyncio.always asyncio.run]. intros Hc w.
  specialize (Hc w). specialize (IH w).
  destruct (step w) as [result w'|seconds rest w']; [done|].
  destruct Hc as [Hw Hrest].
  destruct (IH Hrest (advance seconds w')) as [Hrun HQ]. split; [|done].
  eapply P_trans; [exact Hw|]. eapply P_trans; [apply Hwait|exact Hrun].
Qed.

Lemma first_turn_always {A} (Q : pyresult A → Prop)
    (c : asyncio.Coroutine A) (w : World) :
  asyncio.always P Q c → P w (asyncio.first_turn c w).
Proof.
  intros Hc. pose proof (always_resume Q c w w (P_refl w) Hc) as Hturn.
  unfold asyncio.first_turn.
  by destruct (asyncio.resume c w) as [result w'|seconds rest w'];
    destruct Hturn.
Qed.

(** The run goes on from where the first turn ended. *)
Lemma run_first_turn {A} (Q : pyresult A → Prop) (c : asyncio.Coroutine A)
    (w : World) :
  (∀ seconds w, P w (advance seconds w)) →
  asyncio.always P Q c →
  P (asyncio.first_turn c w) (asyncio.run c w).2.
Proof.
  intros Hwait Hc. pose proof (always_resume Q c w w (P_refl w) Hc) as Hturn.
  rewrite run_unfold. unfold asyncio.first_turn.
  destruct (asyncio.resume c w) as [result w'|seconds rest w']; [done|].
  destruct Hturn as [_ Hrest].
  eapply P_trans; [apply Hwait|]. by apply (run_always Q).
Qed.

End relation.

(** *** The first turn of a [gather] *)

Lemma first_turn_bind {A B} (c : asyncio.Coroutine A)
    (f : A → asyncio.Coroutine B) (w : World) :
  (∀ a w', asyncio.first_turn (f a) w' = w') →
  asyncio.first_turn (c ≫= f) w = asyncio.first_turn c w.
Proof.
  intros Hf. unfold asyncio.first_turn.
  unfold mbind, asyncio.Coroutine_bind. destruct c as [step].
  cbn [asyncio.bind asyncio.resume].
  destruct (step w) as [[a|e] w'|seconds rest w']; [|done..].
  apply Hf.
Qed.

(** In its first turn a pair of tasks runs the first turn of the one, then
    the first turn of the other, whatever the one has done. *)
Lemma first_turn_both {A B} (c1 : asyncio.Coroutine A)
    (c2 : asyncio.Coroutine B) (w : World) :
  asyncio.first_turn (asyncio.both c1 c2) w
  = asyncio.first_turn c2 (asyncio.first_turn c1 w).
Proof.
  unfold asyncio.first_turn at 1 3. destruct c1 as [step1].
  cbn [asyncio.both asyncio.resume].
  destruct (step1 w) as [[a|e] w1|seconds1 rest1 w1].
  - by apply (first_turn_bind c2).
  - unfold asyncio.first_turn.
    by destruct (asyncio.resume c2 w1) as [result w2|seconds2 rest2 w2].
  - unfold asyncio.first_turn.
    by destruct (asyncio.resume c2 w1) as [[b|e] w2|seconds2 rest2 w2].
Qed.

Lemma first_turn_gather {A} (task : asyncio.Coroutine A)
    (rest : list (asyncio.Coroutine A)) (w : World) :
  asyncio.first_turn (asyncio.gather (task :: rest)) w
  = asyncio.first_turn (asyncio.gather rest) (asyncio.first_turn task w).
Proof.
  cbn [asyncio.gather]. rewrite first_turn_bind; [apply first_turn_both|].
  by intros [a results] w'.
Qed.

(** Every task of a [gather] has its first turn in the first turn of the
    [gather]: what it leaves in the world then, and the later turns keep,
    is there when the first turn of the [gather] ends. *)
Lemma gather_first_turn {A} (P : World → World → Prop) (keeps : World → Prop)
    (tasks : list (asyncio.Coroutine A)) :
  (∀ w, P w w) →
  (∀ w1 w2 w3, P w1 w2 → P w2 w3 → P w1 w3) →
  (∀ w w', P w w' → keeps w → keeps w') →
  (∀ task, task ∈ tasks → asyncio.always P (λ _, True) task) →
  ∀ i task,
    tasks !! i = Some task →
    (∀ w, keeps (asyncio.first_turn task w)) →
    ∀ w, keeps (asyncio.first_turn (asyncio.gather tasks) w).
Proof.
  intros Hrefl Htrans Hkeeps.
  induction tasks as [|task0 rest IH]; intros Htasks i task Hi Htask w;
    [done|].
  rewrite first_turn_gather. destruct i as [|i]; simpl in Hi.
  - injection Hi as ->.
    eapply Hkeeps; [|apply Htask].
    apply (first_turn_always P Hrefl Htrans
             (λ result : pyresult (list A), True)).
    eapply always_impl; [done| |apply (always_gather P Hrefl Htrans)].
    + done.
    + intros j t Hj. apply (Htasks t). apply list_elem_of_further.
      by eapply list_elem_of_lookup_2.
  - apply (IH (λ t Ht, Htasks t (list_elem_of_further _ _ _ Ht)) i task);
      done.
Qed.

(** *** Running a coroutine on its own *)

Lemma advance_0 (w : World) : advance 0 w = w.
Proof. destruct w as [c f t]. unfold advance. simpl. f_equal. lia. Qed.

Lemma run_bind {A B} (f : A → asyncio.Coroutine B) (c : asyncio.Coroutine A) :
  ∀ w, asyncio.run (c ≫= f) w =
       match asyncio.run c w with
       | (Returned a, w') => asyncio.run (f a) w'
       | (Raised e, w') => (Raised e, w')
       end.
Proof.
  unfold mbind, asyncio.Coroutine_bind.
  induction c as [step IH] using Coroutine_induction. intros w.
  cbn [asyncio.run asyncio.bind]. specialize (IH w).
  destruct (step w) as [[a|e] w'|seconds rest w']; [|done|by rewrite IH].
  by rewrite run_unfold.
Qed.

Lemma run_try_except {A} (body : asyncio.Coroutine A)
    (handler : exn → asyncio.Coroutine A) :
  ∀ w, asyncio.run (asyncio.try_except body handler) w =
       match asyncio.run body w with
       | (Returned a, w') => (Returned a, w')
       | (Raised e, w') => asyncio.run (handler e) w'
       end.
Proof.
  induction body as [step IH] using Coroutine_induction. intros w.
  cbn [asyncio.run asyncio.try_except]. specialize (IH w).
  destruct (step w) as [[a|e] w'|seconds rest w']; [done| |by rewrite IH].
  by rewrite run_unfold.
Qed.

Lemma run_block {A} (m : M A) (w : World) :
  asyncio.run (asyncio.block m) w = m w.
Proof. unfold asyncio.block. cbn [asyncio.run]. by destruct (m w). Qed.

Lemma resume_bind_block {A B} (m : M A) (f : A → asyncio.Coroutine B)
    (w : World) :
  asyncio.resume (asyncio.block m ≫= f) w =
  match m w with
  | (Returned a, w') => asyncio.resume (f a) w'
  | (Raised e, w') => asyncio.Finished (Raised e) w'
  end.
Proof.
  unfold mbind, asyncio.Coroutine_bind, asyncio.block.
  cbn [asyncio.bind asyncio.resume]. by destruct (m w) as [[a|e] w'].
Qed.

Lemma run_sleep (seconds : Z) (w : World) :
  asyncio.run (asyncio.sleep seconds) w = FileUploader.sleep seconds w.
Proof. reflexivity. Qed.

Lemma run_suspend (w : World) :
  asyncio.run asyncio.suspend w = (Returned (), w).
Proof.
  unfold asyncio.suspend. cbn [asyncio.run]. by rewrite advance_0.
Qed.

End coroutines.

Section pipeline_coroutine.
Context `{urllib.Validators}.
Import FileUploader.

Lemma run_await_post (R : Remote) (attempt : nat) (url : string)
    (headers : Headers) (data : FormData) (w : World) :
  asyncio.run (await_post R attempt url headers data) w
  = session_post R attempt url headers data w.
Proof.
  unfold await_post. by rewrite run_bind, run_suspend, run_block.
Qed.

(** Awaited on its own, the loop is [attempts]. *)
Lemma run_attempts_coroutine (self : t) (R : Remote) (headers : Headers)
    (form : FormData) (n : nat) :
  ∀ (attempt : nat) (w : World),
    asyncio.run (attempts_coroutine self R headers form n attempt) w
    = attempts self R headers form n attempt w.
Proof.
  induction n as [|n IH]; intros attempt w; [done|].
  cbn [attempts_coroutine].
  rewrite run_bind, run_try_except, run_bind, run_await_post.
  destruct (post_body (on_post R attempt)) as [text|] eqn:Hpost.
  - rewrite (attempts_success_step _ _ _ _ _ _ text) by done.
    unfold session_post.
    destruct (on_post R attempt) as [status text'| |]; simpl in Hpost;
      try done.
    destruct (status =? 200); by simplify_eq.
  - rewrite attempts_failed_step by done. rewrite <-IH.
    unfold session_post.
    destruct (on_post R attempt) as [status text'| |]; simpl in Hpost.
    + destruct (status =? 200); [done|].
      by rewrite run_bind, run_sleep.
    + by rewrite run_bind, run_sleep.
    + by rewrite run_bind, run_sleep.
Qed.

(** The first turn of [upload_file]: the download, the reading of the
    clock and of the file, and the loop up to its first wait. *)
Lemma upload_file_coroutine_resume (self : t) (R : Remote) (row : Row)
    (name : string) (w : World) :
  derive_filename (URL row) (ProductId row) (MediaId row) = Returned name →
  asyncio.resume (upload_file_coroutine self R row) w =
  match on_get R with
  | GetRaised | GetUnwritable =>
      asyncio.Finished (Returned download_failed) (log (HttpGet (URL row)) w)
  | GetResponse code chunks ok =>
      if code =? 200
      then
        if ok
        then asyncio.resume
               (attempts_coroutine self R (build_headers self)
                  (build_form row (concat chunks) name (clock w))
                  (max_retries self) 0)
               (prepared self (URL row) name chunks w)
        else asyncio.Finished (Returned download_failed)
               (saved (file_path_of self name) chunks
                  (log (HttpGet (URL row)) w))
      else asyncio.Finished (Returned download_failed)
             (log (HttpGet (URL row)) w)
  end.
Proof.
  intros Hname. unfold upload_file_coroutine.
  rewrite resume_bind_block, (download_image_run _ _ _ _ _ name) by done.
  destruct (on_get R) as [|code chunks ok|]; [done| |done].
  destruct (code =? 200); [|done]. destruct ok; [|done].
  assert (pystr.truthy (file_path_of self name) = true) as ->.
  { apply join_truthy. unfold derive_filename in Hname.
    destruct (urllib.urlparse_path (URL row)); simplify_eq.
    apply new_filename_truthy. }
  cbn [negb]. rewrite resume_bind_block. unfold utcnow at 1.
  rewrite resume_bind_block. unfold read_file at 1.
  cbn [files log saved clock]. by rewrite lookup_insert_eq.
Qed.

Lemma upload_file_coroutine_raises (self : t) (R : Remote) (row : Row)
    (e : exn) (w : World) :
  derive_filename (URL row) (ProductId row) (MediaId row) = Raised e →
  asyncio.resume (upload_file_coroutine self R row) w
  = asyncio.Finished (Raised e) w.
Proof.
  intros He. unfold upload_file_coroutine.
  by rewrite resume_bind_block, (download_image_raises _ _ _ _ _ e).
Qed.

(** Awaited on its own, the coroutine is [upload_file]. *)
Lemma run_upload_file_coroutine (self : t) (R : Remote) (row : Row)
    (w : World) :
  asyncio.run (upload_file_coroutine self R row) w = upload_file self R row w.
Proof.
  rewrite run_unfold.
  destruct (derive_filename (URL row) (ProductId row) (MediaId row))
    as [name|e] eqn:Hname.
  2:{ by rewrite (upload_file_coroutine_raises _ _ _ e),
        (upload_file_raises _ _ _ e). }
  rewrite (upload_file_coroutine_resume _ _ _ name),
    (upload_file_run _ _ _ name) by done.
  destruct (on_get R) as [|code chunks ok|]; [done| |done].
  destruct (code =? 200); [|done]. destruct ok; [|done].
  by rewrite <-run_unfold, run_attempts_coroutine.
Qed.

Section pipeline_relation.
Context (P : World → World → Prop).
Hypothesis P_refl : ∀ w, P w w.
Hypothesis P_trans : ∀ w1 w2 w3, P w1 w2 → P w2 w3 → P w1 w3.

(** The loop however it is scheduled: its result is the one of [attempts],
    and each of its turns posts the form or starts a sleep, at most. *)
Lemma attempts_coroutine_always (self : t) (R : Remote) (headers : Headers)
    (form : FormData) (n : nat) :
  (∀ w, P w (log (HttpPost (upload_url self) headers form) w)) →
  (∀ seconds w, P w (log (Sleep seconds) w)) →
  ∀ attempt,
    asyncio.always P
      (λ result,
         result = Returned match first_success R n attempt with
                           | Some (_, text) => uploaded text
                           | None => max_retries_reached
                           end)
      (attempts_coroutine self R headers form n attempt).
Proof.
  intros Hpost Hsleep.
  induction n as [|n IH]; intros attempt; cbn [attempts_coroutine first_success].
  { by apply always_ret. }
  pose proof (IH (S attempt)) as Hnext. clear IH.
  unfold await_post, session_post, post_body.
  destruct (first_success R n (S attempt)) as [[k text']|];
    (destruct (on_post R attempt) as [status text| |]; cbn;
     [destruct (status =? 200); cbn|..]);
    intros w; (split; [done|]); intros w0.
  all: try (split; [apply Hpost|done]).
  all: (split; [eapply P_trans; [apply Hpost|apply Hsleep]|]); intros w1.
  all: by apply (always_resume P P_trans _ _ w1 w1 (P_refl w1) Hnext).
Qed.

(** The pipeline however it is scheduled: its result is the one of
    [upload_file], whatever the world, and each of its turns is made of its
    own requests, writes, reads and sleeps. *)
Lemma upload_file_coroutine_always (self : t) (R : Remote) (row : Row) :
  (∀ w, P w (log (HttpGet (URL row)) w)) →
  (∀ name chunks w,
     derive_filename (URL row) (ProductId row) (MediaId row) = Returned name →
     P w (saved (file_path_of self name) chunks w)) →
  (∀ name w,
     derive_filename (URL row) (ProductId row) (MediaId row) = Returned name →
     P w (log (ReadFile (file_path_of self name)) w)) →
  (∀ now w, P w (log (UtcNow now) w)) →
  (∀ form w, P w (log (HttpPost (upload_url self) (build_headers self) form) w)) →
  (∀ seconds w, P w (log (Sleep seconds) w)) →
  asyncio.always P
    (λ result, ∀ w0, (upload_file self R row w0).1 = result)
    (upload_file_coroutine self R row).
Proof.
  intros Hget Hsaved Hread Hnow Hpost Hsleep. apply always_unfold. intros w.
  destruct (derive_filename (URL row) (ProductId row) (MediaId row))
    as [name|e] eqn:Hname.
  2:{ rewrite (upload_file_coroutine_raises _ _ _ e) by done.
      split; [done|]. intros w0. by rewrite (upload_file_raises _ _ _ e). }
  rewrite (upload_file_coroutine_resume _ _ _ name) by done.
  assert (∀ chunks,
    P w (saved (file_path_of self name) chunks (log (HttpGet (URL row)) w)))
    as Hdown.
  { intros chunks. eapply P_trans; [apply Hget|by apply Hsaved]. }
  destruct (on_get R) as [|code chunks ok|] eqn:Hon_get.
  - split; [done|]. intros w0.
    by rewrite (upload_file_run _ _ _ name), Hon_get.
  - destruct (code =? 200) eqn:Hcode.
    + destruct ok.
      * apply always_resume; [done|..].
        { unfold prepared. eapply P_trans; [apply Hdown|].
          eapply P_trans; [apply Hnow|by apply Hread]. }
        eapply always_impl;
          [done| |by apply attempts_coroutine_always].
        intros result -> w0.
        rewrite (upload_file_run _ _ _ name), Hon_get, Hcode by done.
        rewrite attempts_run.
        by destruct (first_success R (max_retries self) 0) as [[k text]|].
      * split; [done|]. intros w0.
        by rewrite (upload_file_run _ _ _ name), Hon_get, Hcode.
    + split; [done|]. intros w0.
      by rewrite (upload_file_run _ _ _ name), Hon_get, Hcode.
  - split; [done|]. intros w0.
    by rewrite (upload_file_run _ _ _ name), Hon_get.
Qed.

End pipeline_relation.

(** The GET of a row whose URL parses is made in the first turn of its
    pipeline. *)
Lemma upload_file_coroutine_first_turn (self : t) (R : Remote) (row : Row)
    (name : string) (w : World) :
  derive_filename (URL row) (ProductId row) (MediaId row) = Returned name →
  HttpGet (URL row)
  ∈ trace (asyncio.first_turn (upload_file_coroutine self R row) w).
Proof.
  intros Hname. unfold asyncio.first_turn.
  rewrite (upload_file_coroutine_resume _ _ _ name) by done.
  assert (∀ w', HttpGet (URL row) ∈ trace (log (HttpGet (URL row)) w'))
    as Hget.
  { intros w'. cbn [log trace]. apply elem_of_app. right.
    apply list_elem_of_here. }
  assert (∀ chunks,
    HttpGet (URL row)
    ∈ trace (saved (file_path_of self name) chunks
               (log (HttpGet (URL row)) w))) as Hsaved.
  { intros chunks. cbn [saved trace]. apply elem_of_app. left. apply Hget. }
  destruct (on_get R) as [|code chunks ok|]; [done| |done].
  destruct (code =? 200); [|done]. destruct ok; [|done].
  assert (asyncio.always (λ w1 w2, ∀ e, e ∈ trace w1 → e ∈ trace w2)
            (λ result,
               result = Returned
                 match first_success R (max_retries self) 0 with
                 | Some (_, text) => uploaded text
                 | None => max_retries_reached
                 end)
            (attempts_coroutine self R (build_headers self)
               (build_form row (concat chunks) name (clock w))
               (max_retries self) 0)) as Hloop.
  { apply attempts_coroutine_always.
    - by intros w1 e He.
    - by intros w1 w2 w3 H12 H23 e He; apply H23, H12.
    - intros w1 e He. cbn [log trace]. apply elem_of_app. by left.
    - intros seconds w1 e He. cbn [log trace]. apply elem_of_app. by left. }
  pose proof (first_turn_always _ (λ w1 e He, He)
    (λ w1 w2 w3 H12 H23 e He, H23 e (H12 e He)) _ _
    (prepared self (URL row) name chunks w) Hloop) as Hturn.
  unfold asyncio.first_turn in Hturn. apply Hturn.
  unfold prepared. cbn [log trace]. apply elem_of_app. left.
  apply elem_of_app. left. apply Hsaved.
Qed.

End pipeline_coroutine.

(** ** The batch *)
Section batch.
Context `{urllib.Validators} `{Workbook}.
Import FileUploader.

Lemma batch_turn_refl (self : ProcessManager.t) (w : World) :
  batch_turn self w w.
Proof.
  split; [|done]. exists []. by rewrite app_nil_r.
Qed.

Lemma batch_turn_trans (self : ProcessManager.t) (w1 w2 w3 : World) :
  batch_turn self w1 w2 → batch_turn self w2 w3 → batch_turn self w1 w3.
Proof.
  intros [(new1 & Htrace1 & Hnew1) Hfiles1] [(new2 & Htrace2 & Hnew2) Hfiles2].
  split.
  - exists (new1 ++ new2). rewrite Htrace2, Htrace1, app_assoc.
    split; [done|]. by apply Forall_app.
  - intros file_path. destruct (Hfiles1 file_path) as [Hkeep1 Hother1].
    destruct (Hfiles2 file_path) as [Hkeep2 Hother2]. split; [auto|].
    intros Hother. by rewrite Hother2, Hother1.
Qed.

Lemma batch_turn_advance (self : ProcessManager.t) (seconds : Z) (w : World) :
  batch_turn self w (advance seconds w).
Proof.
  split; [|done]. exists []. by rewrite app_nil_r.
Qed.

Lemma batch_turn_log (self : ProcessManager.t) (row : Row) (e : event)
    (w : World) :
  row ∈ ProcessManager.db self →
  pipeline_event (ProcessManager.uploader self) row e →
  batch_turn self w (log e w).
Proof.
  intros Hrow He. split; [|done]. exists [e]. split; [done|].
  apply Forall_singleton. by exists row.
Qed.

Lemma batch_turn_saved (self : ProcessManager.t) (row : Row) (name : string)
    (chunks : list bytes) (w : World) :
  row ∈ ProcessManager.db self →
  derive_filename (URL row) (ProductId row) (MediaId row) = Returned name →
  batch_turn self w
    (saved (file_path_of (ProcessManager.uploader self) name) chunks w).
Proof.
  intros Hrow Hname. split.
  - eexists. split; [done|]. apply Forall_cons. split.
    + exists row. split; [done|]. by exists name.
    + apply Forall_fmap, Forall_forall. intros chunk _.
      exists row. split; [done|]. by exists name.
  - intros file_path. cbn [saved files]. split.
    + intros Hin. rewrite lookup_insert_is_Some.
      destruct (decide (file_path_of (ProcessManager.uploader self) name
                        = file_path)); auto.
    + intros Hother. apply lookup_insert_ne. intros Heq.
      by apply (Hother row name).
Qed.

(** The pipeline of each row, as a task of the gathering. *)
Lemma tasks_always (self : ProcessManager.t) (remotes : nat → Remote)
    (i : nat) (task : asyncio.Coroutine outcome) :
  ProcessManager.tasks self remotes (ProcessManager.db self) !! i = Some task →
  asyncio.always (batch_turn self)
    (λ result,
       ∃ row,
         ProcessManager.db self !! i = Some row
         ∧ ∀ w0, (upload_file (ProcessManager.uploader self) (remotes i)
                    row w0).1 = result)
    task.
Proof.
  intros Htask. unfold ProcessManager.tasks in Htask.
  rewrite list_lookup_imap in Htask.
  destruct (ProcessManager.db self !! i) as [row|] eqn:Hrow; [|done].
  injection Htask as <-.
  assert (row ∈ ProcessManager.db self) as Hin.
  { by eapply list_elem_of_lookup_2. }
  eapply always_impl;
    [done|
    |apply (upload_file_coroutine_always (batch_turn self)
              (batch_turn_refl self) (batch_turn_trans self))].
  - intros result Hres. by exists row.
  - intros w1. by apply (batch_turn_log self row).
  - intros name chunks w1 Hname. by apply (batch_turn_saved self row).
  - intros name w1 Hname. apply (batch_turn_log self row); [done|].
    by exists name.
  - intros now w1. by apply (batch_turn_log self row).
  - intros form w1. by apply (batch_turn_log self row).
  - intros seconds w1. by apply (batch_turn_log self row).
Qed.

(** The gathering: every turn of the loop is a turn of the pipelines of
    the table; what it returns is one outcome per row, in row order, each the
    outcome of [upload_file] on that row; what it raises is what
    [upload_file] raises on one of the rows. *)
Lemma collect_spec (self : ProcessManager.t) (remotes : nat → Remote)
    (w : World) :
  batch_turn self w (ProcessManager.collect self remotes w).2
  ∧ match (ProcessManager.collect self remotes w).1 with
    | Returned results =>
        length results = length (ProcessManager.db self)
        ∧ ∀ i a, results !! i = Some a →
            ∃ row,
              ProcessManager.db self !! i = Some row
              ∧ ∀ w0, (upload_file (ProcessManager.uploader self) (remotes i)
                         row w0).1 = Returned a
    | Raised e =>
        ∃ i row,
          ProcessManager.db self !! i = Some row
          ∧ ∀ w0, (upload_file (ProcessManager.uploader self) (remotes i)
                     row w0).1 = Raised e
    end.
Proof.
  unfold ProcessManager.collect, ProcessManager.gather.
  pose proof (always_gather (batch_turn self) (batch_turn_refl self)
    (batch_turn_trans self) _ _ (tasks_always self remotes)) as Hgather.
  destruct (run_always (batch_turn self) (batch_turn_trans self) _ _
              (batch_turn_advance self) Hgather w) as [Hturn Hresult].
  split; [done|].
  destruct (asyncio.run _ w).1 as [results|e].
  - destruct Hresult as [Hlen Hresults]. split; [|done].
    unfold ProcessManager.tasks in Hlen. by rewrite length_imap in Hlen.
  - destruct Hresult as (i & _ & row & Hrow & He). by exists i, row.
Qed.

(** Every pipeline is started: what the first turn of the pipeline of a row
    adds to the trace is in the trace when the gathering ends, whether it
    returns or raises. *)
Lemma collect_starts_every_pipeline (self : ProcessManager.t)
    (remotes : nat → Remote) (w : World) (i : nat) (row : Row) (e : event) :
  ProcessManager.db self !! i = Some row →
  (∀ w',
     e ∈ trace (asyncio.first_turn
                  (upload_file_coroutine (ProcessManager.uploader self)
                     (remotes i) row) w')) →
  e ∈ trace (ProcessManager.collect self remotes w).2.
Proof.
  intros Hrow He. unfold ProcessManager.collect, ProcessManager.gather.
  assert (∀ w1 w2, batch_turn self w1 w2 → e ∈ trace w1 → e ∈ trace w2)
    as Hkeeps.
  { intros w1 w2 [(new & -> & _) _] Hin. apply elem_of_app. by left. }
  pose proof (always_gather (batch_turn self) (batch_turn_refl self)
    (batch_turn_trans self) _ _ (tasks_always self remotes)) as Hgather.
  eapply Hkeeps.
  { apply (run_first_turn (batch_turn self) (batch_turn_refl self)
             (batch_turn_trans self) _ _ w (batch_turn_advance self) Hgather). }
  apply (gather_first_turn (batch_turn self) (λ w', e ∈ trace w')
           (ProcessManager.tasks self remotes (ProcessManager.db self))
           (batch_turn_refl self) (batch_turn_trans self) Hkeeps)
    with (i := i)
         (task := upload_file_coroutine (ProcessManager.uploader self)
                    (remotes i) row).
  - intros task Htask. apply list_elem_of_lookup_1 in Htask as [j Hj].
    eapply always_impl; [done| |apply (tasks_always self remotes j)]; done.
  - unfold ProcessManager.tasks. by rewrite list_lookup_imap, Hrow.
  - done.
Qed.

(** When every URL of the table parses, the gathering returns one outcome
    per row. *)
Lemma collect_returns_all (self : ProcessManager.t) (remotes : nat → Remote)
    (w : World) :
  (∀ row, row ∈ ProcessManager.db self →
     ∃ name, derive_filename (URL row) (ProductId row) (MediaId row)
             = Returned name) →
  ∃ results,
    (ProcessManager.collect self remotes w).1 = Returned results
    ∧ length results = length (ProcessManager.db self).
Proof.
  intros Hparse. destruct (collect_spec self remotes w) as [_ Hresult].
  destruct (ProcessManager.collect self remotes w).1 as [results|e].
  - exists results. by destruct Hresult.
  - destruct Hresult as (i & row & Hrow & He).
    destruct (Hparse row) as [name Hname]; [by eapply list_elem_of_lookup_2|].
    destruct (upload_file_returns (ProcessManager.uploader self) (remotes i)
                row name w Hname) as [result Hres].
    rewrite He in Hres. done.
Qed.

(** When [urlparse] rejects the URL of a row, the gathering raises. *)
Lemma collect_raises (self : ProcessManager.t) (remotes : nat → Remote)
    (w : World) (row : Row) (e : exn) :
  row ∈ ProcessManager.db self →
  derive_filename (URL row) (ProductId row) (MediaId row) = Raised e →
  ∃ e', (ProcessManager.collect self remotes w).1 = Raised e'.
Proof.
  intros Hrow He. destruct (collect_spec self remotes w) as [_ Hresult].
  destruct (ProcessManager.collect self remotes w).1 as [results|e'];
    [|by exists e'].
  destruct Hresult as [Hlen Hresults].
  apply list_elem_of_lookup_1 in Hrow as [i Hi].
  destruct (lookup_lt_is_Some_2 results i) as [a Ha].
  { rewrite Hlen. by eapply lookup_lt_Some. }
  destruct (Hresults i a Ha) as (row' & Hrow' & Hres).
  rewrite Hi in Hrow'. injection Hrow' as <-.
  specialize (Hres w). by rewrite (upload_file_raises _ _ _ e) in Hres.
Qed.

(** What [run] adds once the gathering has returned: the table as it was
    fetched goes to the report, then the connection is closed. *)
Lemma run_after_collect (self : ProcessManager.t) (remotes : nat → Remote)
    (w : World) :
  ProcessManager.run self remotes w =
  match ProcessManager.collect self remotes w with
  | (Returned _, w') =>
      (Returned (),
       log DbClose
         (log (ToExcel "output.xlsx" (ProcessManager.db self))
            (set_files
               (<["output.xlsx" := xlsx (ProcessManager.db self)]> (files w'))
               w')))
  | (Raised e, w') => (Raised e, w')
  end.
Proof.
  unfold ProcessManager.run, mbind, M_bind.
  by destruct (ProcessManager.collect self remotes w) as [[results|e] w'].
Qed.

(** The table reaches the report as it was fetched, after everything the
    pipelines did. *)
Lemma run_reports_table (self : ProcessManager.t) (remotes : nat → Remote)
    (w : World) (results : list outcome) :
  (ProcessManager.collect self remotes w).1 = Returned results →
  reports (trace (ProcessManager.run self remotes w).2)
  = reports (trace (ProcessManager.collect self remotes w).2)
    ++ [ProcessManager.db self].
Proof.
  intros Hres. rewrite run_after_collect.
  destruct (ProcessManager.collect self remotes w) as [[results'|e] w'];
    [|done].
  cbn [snd log trace]. unfold reports. by rewrite <-app_assoc, omap_app.
Qed.

(** The outcome of a pipeline depends on its row and on what the network
    answers it, not on the clock, the files or the events so far. *)
Lemma upload_file_outcome_world (self : t) (R : Remote) (row : Row)
    (w1 w2 : World) :
  (upload_file self R row w1).1 = (upload_file self R row w2).1.
Proof.
  destruct (derive_filename (URL row) (ProductId row) (MediaId row))
    as [name|e] eqn:Hname.
  2:{ by rewrite !(upload_file_raises _ _ _ e). }
  rewrite !(upload_file_run _ _ _ name) by done.
  destruct (on_get R) as [|code chunks ok|]; [done| |done].
  destruct (code =? 200); [|done]. destruct ok; [|done].
  rewrite !attempts_run.
  by destruct (first_success _ _ _) as [[k text]|].
Qed.

(** The gathered outcomes are keyed by row: the outcome at position [i] is
    the outcome of the pipeline of row [i]. *)
Lemma collect_keyed_by_row (self : ProcessManager.t) (remotes : nat → Remote)
    (w : World) (results : list outcome) :
  (ProcessManager.collect self remotes w).1 = Returned results →
  ∀ i row, ProcessManager.db self !! i = Some row →
    ∀ w', Returned <$> results !! i
          = Some (upload_file (ProcessManager.uploader self) (remotes i) row w').1.
Proof.
  intros Hres i row Hrow w'.
  destruct (collect_spec self remotes w) as [_ Hresult].
  rewrite Hres in Hresult. destruct Hresult as [Hlen Hresults].
  destruct (lookup_lt_is_Some_2 results i) as [a Ha].
  { rewrite Hlen. by eapply lookup_lt_Some. }
  destruct (Hresults i a Ha) as (row' & Hrow' & Houtcome).
  rewrite Hrow in Hrow'. injection Hrow' as <-.
  by rewrite Ha, Houtcome.
Qed.

(** X13. No file that exists when [run] starts is gone when it ends. *)
Lemma run_keeps_files (self : ProcessManager.t) (remotes : nat → Remote)
    (w : World) (file_path : string) :
  is_Some (files w !! file_path) →
  is_Some (files (ProcessManager.run self remotes w).2 !! file_path).
Proof.
  intros Hin. rewrite run_after_collect.
  assert (is_Some (files (ProcessManager.collect self remotes w).2 !! file_path))
    as Hc.
  { destruct (collect_spec self remotes w) as [[_ Hfiles] _].
    by apply Hfiles. }
  destruct (ProcessManager.collect self remotes w) as [[results|e] w'];
    [|done].
  cbn [snd log set_files files] in *. rewrite lookup_insert_is_Some.
  destruct (decide ("output.xlsx" = file_path)); auto.
Qed.

End batch.

(** * The claims *)

(** ** File names *)
Section claim_filenames.
Context `{urllib.Validators}.
Import FileUploader.

(** C6. The file name is a function of the URL and the two identifiers: a
    derivation that yields a name yields
    [{productId}_{mediaId}_{basename(urlparse(url).path)}], the same inputs
    yield the same name, [download_image] hands back that very name
    whatever the network and the disk hold, and two records that differ in
    their product or media identifier get different names. *)
Theorem derive_filename_deterministic_collision_free
    (url1 url2 : string) (pid1 mid1 pid2 mid2 : Z) (name1 name2 : string) :
  derive_filename url1 pid1 mid1 = Returned name1 →
  derive_filename url2 pid2 mid2 = Returned name2 →
  (∃ p, urllib.urlparse_path url1 = Returned p
        ∧ name1 = pretty pid1 +:+ "_" +:+ pretty mid1 +:+ "_"
                  +:+ os_path.basename p)
  ∧ (url1 = url2 → pid1 = pid2 → mid1 = mid2 → name1 = name2)
  ∧ (∀ self R w file_path name,
       (download_image self R url1 pid1 mid1 w).1
       = Returned (Some (file_path, name)) →
       name = name1
       ∧ file_path = os_path.join (image_download_path self) name1)
  ∧ (pid1 ≠ pid2 ∨ mid1 ≠ mid2 → name1 ≠ name2).
Proof.
  intros H1 H2.
  assert (∀ self R w file_path name,
    (download_image self R url1 pid1 mid1 w).1
    = Returned (Some (file_path, name)) →
    name = name1 ∧ file_path = os_path.join (image_download_path self) name1)
    as Hdownload.
  { intros self R w file_path name.
    rewrite (download_image_run _ _ _ _ _ name1) by done.
    destruct (on_get R) as [|code chunks ok|]; [done| |done].
    destruct (code =? 200); [|done]. destruct ok; [|done].
    simpl. unfold file_path_of. intros [= <- <-]. done. }
  split; [|split; [|split]]; [| |exact Hdownload|].
  - unfold derive_filename in H1.
    destruct (urllib.urlparse_path url1) as [p|e]; [|done].
    exists p. split; [done|]. by injection H1 as <-.
  - intros -> -> ->. congruence.
  - intros Hdiff Heq. subst name2. unfold derive_filename in H1, H2.
    destruct (urllib.urlparse_path url1) as [p1|]; [|done].
    destruct (urllib.urlparse_path url2) as [p2|]; [|done].
    injection H1 as H1. injection H2 as H2. rewrite <-H2 in H1.
    apply new_filename_inj in H1 as (? & ? & _). destruct Hdiff; congruence.
Qed.

End claim_filenames.

(** ** The retry loop *)
Section claim_retry.
Context `{urllib.Validators}.
Import FileUploader.

Lemma post_body_failed (r : post_result) :
  post_body r = None ↔ attempt_failed r.
Proof.
  destruct r as [status text| |]; simpl; [|done..].
  destruct (Z.eqb_spec status 200); split; (done || congruence).
Qed.

Lemma post_body_ok (r : post_result) (text : string) :
  post_body r = Some text ↔ r = PostResponse 200 text.
Proof.
  destruct r as [status text'| |]; simpl; [|split; done..].
  destruct (Z.eqb_spec status 200) as [->|]; split; intros; simplify_eq; done.
Qed.

Lemma first_success_ext (R R' : Remote) (n : nat) :
  (∀ i, post_body (on_post R' i) = post_body (on_post R i)) →
  ∀ attempt, first_success R' n attempt = first_success R n attempt.
Proof.
  intros Hsame. induction n as [|n IH]; intros attempt; [done|].
  cbn [first_success]. by rewrite Hsame, IH.
Qed.

Lemma posts_app (tr1 tr2 : list event) :
  posts (tr1 ++ tr2) = posts tr1 ++ posts tr2.
Proof. apply omap_app. Qed.

Lemma sleeps_app (tr1 tr2 : list event) :
  sleeps (tr1 ++ tr2) = sleeps tr1 ++ sleeps tr2.
Proof. apply omap_app. Qed.

(** C4. Whatever the attempts answer: the loop stops at the first attempt
    answered 200 and returns the triple "Success", "Uploaded successfully"
    and the response text of that attempt, having posted no further time;
    when none of the [max_retries] attempts is answered 200 it returns the
    triple "Error", "Max retries reached" and the empty text; and which way
    an attempt fails (another status, the timeout, an exception) changes
    nothing of what the loop does. *)
Theorem attempts_outcome (self : t) (R : Remote) (headers : Headers)
    (form : FormData) (w : World) :
  (∀ k text,
     (k < max_retries self)%nat →
     (∀ i, (i < k)%nat → attempt_failed (on_post R i)) →
     on_post R k = PostResponse 200 text →
     (attempts self R headers form (max_retries self) 0 w).1
     = Returned ("Success", "Uploaded successfully", text)
     ∧ posts (trace (attempts self R headers form (max_retries self) 0 w).2)
       = posts (trace w) ++ replicate (S k) form
     ∧ sleeps (trace (attempts self R headers form (max_retries self) 0 w).2)
       = sleeps (trace w) ++ (backoff <$> seq 0 k))
  ∧ ((∀ i, (i < max_retries self)%nat → attempt_failed (on_post R i)) →
     (attempts self R headers form (max_retries self) 0 w).1
     = Returned ("Error", "Max retries reached", "")
     ∧ posts (trace (attempts self R headers form (max_retries self) 0 w).2)
       = posts (trace w) ++ replicate (max_retries self) form
     ∧ sleeps (trace (attempts self R headers form (max_retries self) 0 w).2)
       = sleeps (trace w) ++ (backoff <$> seq 0 (max_retries self)))
  ∧ (∀ R',
       (∀ i, post_body (on_post R' i) = post_body (on_post R i)) →
       attempts self R' headers form (max_retries self) 0 w
       = attempts self R headers form (max_retries self) 0 w).
Proof.
  split; [|split].
  - intros k text Hk Hfail Hok. rewrite attempts_run.
    rewrite (first_success_some R _ 0 k text); [|done| |].
    + cbn [fst snd posted log trace].
      rewrite failed_rounds_trace, !posts_app, !sleeps_app.
      rewrite posts_failed_events, sleeps_failed_events.
      split; [done|]. split.
      * rewrite <-app_assoc. f_equal.
        change (posts [HttpPost (upload_url self) headers form]) with [form].
        by rewrite <-replicate_S_end.
      * change (sleeps [HttpPost (upload_url self) headers form]) with (@nil Z).
        by rewrite app_nil_r.
    + intros i Hi. by apply post_body_failed, Hfail.
    + by apply post_body_ok.
  - intros Hfail. rewrite attempts_run.
    rewrite first_success_none.
    + cbn [fst snd].
      by rewrite failed_rounds_trace, posts_app, sleeps_app,
        posts_failed_events, sleeps_failed_events.
    + intros i Hi. by apply post_body_failed, Hfail.
  - intros R' Hsame. rewrite !attempts_run.
    by rewrite (first_success_ext R R').
Qed.

Lemma prepared_trace (self : t) (url name : string) (chunks : list bytes)
    (w : World) :
  trace (prepared self url name chunks w)
  = trace w ++ prepare_events self url name chunks (clock w).
Proof.
  unfold prepared, prepare_events, saved. cbn [trace log clock].
  rewrite <-!app_assoc. reflexivity.
Qed.

(** C3, as amended. When the image is fetched and none of the three
    attempts is answered 200, [upload_file] posts exactly three times and
    sleeps 1 second after the first attempt, 2 after the second and 4
    after the third, before it returns "Max retries reached". *)
Theorem failed_upload_posts_and_delays (config : ConfigLoader.t) (R : Remote)
    (row : Row) (name : string) (chunks : list bytes) (w : World) :
  derive_filename (URL row) (ProductId row) (MediaId row) = Returned name →
  on_get R = GetResponse 200 chunks true →
  (∀ i, (i < 3)%nat → attempt_failed (on_post R i)) →
  (upload_file (init config) R row w).1 = Returned max_retries_reached
  ∧ trace (upload_file (init config) R row w).2
    = trace w
      ++ prepare_events (init config) (URL row) name chunks (clock w)
      ++ [ HttpPost (ConfigLoader.upload_url config)
             (build_headers (init config))
             (build_form row (concat chunks) name (clock w));
           Sleep 1;
           HttpPost (ConfigLoader.upload_url config)
             (build_headers (init config))
             (build_form row (concat chunks) name (clock w));
           Sleep 2;
           HttpPost (ConfigLoader.upload_url config)
             (build_headers (init config))
             (build_form row (concat chunks) name (clock w));
           Sleep 4 ]
  ∧ clock (upload_file (init config) R row w).2 = clock w + 7.
Proof.
  intros Hname Hget Hfail.
  rewrite (upload_file_run _ _ _ name) by done. rewrite Hget.
  cbn [Z.eqb Pos.eqb]. rewrite attempts_run.
  rewrite first_success_none.
  2:{ intros i Hi. by apply post_body_failed, Hfail. }
  cbn [fst snd]. split; [done|]. split.
  - rewrite failed_rounds_trace, prepared_trace, <-app_assoc. reflexivity.
  - rewrite failed_rounds_clock. cbn [prepared saved log clock]. reflexivity.
Qed.

End claim_retry.

(** ** One form per record *)
Section claim_form.
Context `{urllib.Validators}.
Import FileUploader.

Lemma first_success_lt (R : Remote) (n : nat) :
  ∀ attempt k text, first_success R n attempt = Some (k, text) → (k < n)%nat.
Proof.
  induction n as [|n IH]; intros attempt k text; [done|].
  cbn [first_success]. destruct (post_body (on_post R attempt)).
  - intros [= <- _]. lia.
  - destruct (first_success R n (S attempt)) as [[k' text']|] eqn:Hrec; [|done].
    intros [= <- _]. apply IH in Hrec. lia.
Qed.

Lemma reads_app (tr1 tr2 : list event) :
  reads (tr1 ++ tr2) = reads tr1 ++ reads tr2.
Proof. apply omap_app. Qed.

Lemma clock_reads_app (tr1 tr2 : list event) :
  clock_reads (tr1 ++ tr2) = clock_reads tr1 ++ clock_reads tr2.
Proof. apply omap_app. Qed.

Lemma gets_app (tr1 tr2 : list event) :
  gets (tr1 ++ tr2) = gets tr1 ++ gets tr2.
Proof. apply omap_app. Qed.

Lemma reads_failed_events (self : t) (headers : Headers) (form : FormData)
    (n attempt : nat) :
  reads (failed_events self headers form n attempt) = [].
Proof.
  unfold failed_events. revert attempt.
  induction n as [|n IH]; intros attempt; [done|]. apply IH.
Qed.

Lemma clock_reads_failed_events (self : t) (headers : Headers)
    (form : FormData) (n attempt : nat) :
  clock_reads (failed_events self headers form n attempt) = [].
Proof.
  unfold failed_events. revert attempt.
  induction n as [|n IH]; intros attempt; [done|]. apply IH.
Qed.

Lemma reads_prepare_events (self : t) (url name : string)
    (chunks : list bytes) (now : Z) :
  reads (prepare_events self url name chunks now) = [file_path_of self name].
Proof.
  unfold prepare_events, reads. cbn [omap list_omap].
  rewrite omap_app. induction chunks as [|chunk rest IH]; [done|]. apply IH.
Qed.

Lemma clock_reads_prepare_events (self : t) (url name : string)
    (chunks : list bytes) (now : Z) :
  clock_reads (prepare_events self url name chunks now) = [now].
Proof.
  unfold prepare_events, clock_reads. cbn [omap list_omap].
  rewrite omap_app. induction chunks as [|chunk rest IH]; [done|]. apply IH.
Qed.

Lemma posts_prepare_events (self : t) (url name : string)
    (chunks : list bytes) (now : Z) :
  posts (prepare_events self url name chunks now) = [].
Proof.
  unfold prepare_events, posts. cbn [omap list_omap].
  rewrite omap_app. induction chunks as [|chunk rest IH]; [done|]. apply IH.
Qed.

(** What a pipeline whose download succeeded leaves behind: the events of
    the download and of the building of the form, then between one and
    [max_retries] posts of that one form with nothing read in between, and
    the downloaded body on disk. *)
Lemma upload_file_after_download (self : t) (R : Remote) (row : Row)
    (name : string) (chunks : list bytes) (w : World) :
  derive_filename (URL row) (ProductId row) (MediaId row) = Returned name →
  on_get R = GetResponse 200 chunks true →
  (0 < max_retries self)%nat →
  ∃ (loop : list event) (k : nat),
    trace (upload_file self R row w).2
    = trace w ++ prepare_events self (URL row) name chunks (clock w) ++ loop
    ∧ (1 ≤ k ≤ max_retries self)%nat
    ∧ posts loop = replicate k (build_form row (concat chunks) name (clock w))
    ∧ reads loop = []
    ∧ clock_reads loop = []
    ∧ files (upload_file self R row w).2
      = <[file_path_of self name := concat chunks]> (files w)
    ∧ ((∃ text, (upload_file self R row w).1 = Returned (uploaded text))
       ∨ (upload_file self R row w).1 = Returned max_retries_reached).
Proof.
  intros Hname Hget Hpos.
  rewrite (upload_file_run _ _ _ name) by done. rewrite Hget.
  cbn [Z.eqb Pos.eqb]. rewrite attempts_run.
  set (form := build_form row (concat chunks) name (clock w)).
  set (headers := build_headers self).
  destruct (first_success R (max_retries self) 0) as [[k text]|] eqn:Hfirst.
  - apply first_success_lt in Hfirst.
    exists (failed_events self headers form k 0
            ++ [HttpPost (upload_url self) headers form]), (S k).
    cbn [fst snd posted log trace files].
    rewrite failed_rounds_trace, failed_rounds_files, prepared_trace.
    rewrite posts_app, reads_app, clock_reads_app.
    rewrite posts_failed_events, reads_failed_events, clock_reads_failed_events.
    repeat split; try done; try lia.
    + by rewrite <-!app_assoc.
    + cbn [posts omap list_omap]. by rewrite <-replicate_S_end.
    + left. by exists text.
  - exists (failed_events self headers form (max_retries self) 0),
      (max_retries self).
    cbn [fst snd].
    rewrite failed_rounds_trace, failed_rounds_files, prepared_trace.
    rewrite posts_failed_events, reads_failed_events, clock_reads_failed_events.
    repeat split; try done; try lia.
    + by rewrite <-!app_assoc.
    + by right.
Qed.

(** C2, as amended. For a record whose image is fetched, the clock is read
    once, before the first attempt, and every attempt posts the one form
    built then: all attempts carry the same [Date], the reading taken
    before the first of them. *)
Theorem date_stamped_once_per_record (config : ConfigLoader.t) (R : Remote)
    (row : Row) (name : string) (chunks : list bytes) (w : World) :
  derive_filename (URL row) (ProductId row) (MediaId row) = Returned name →
  on_get R = GetResponse 200 chunks true →
  ∃ (new : list event) (k : nat),
    trace (upload_file (init config) R row w).2 = trace w ++ new
    ∧ (1 ≤ k ≤ 3)%nat
    ∧ clock_reads new = [clock w]
    ∧ posts new = replicate k (build_form row (concat chunks) name (clock w))
    ∧ dates (build_form row (concat chunks) name (clock w)) = [clock w].
Proof.
  intros Hname Hget.
  destruct (upload_file_after_download (init config) R row name chunks w)
    as (loop & k & Htrace & Hk & Hposts & _ & Hclock & _); [done..|cbn; lia|].
  exists (prepare_events (init config) (URL row) name chunks (clock w) ++ loop), k.
  rewrite clock_reads_app, posts_app, Hclock, Hposts.
  rewrite clock_reads_prepare_events, posts_prepare_events.
  split; [exact Htrace|]. split; [exact Hk|]. by repeat split.
Qed.

(** C8, as amended. For a record whose image is fetched, the downloaded
    file is opened and read once, before the first attempt, and every
    attempt posts the bytes read then. *)
Theorem payload_read_once_per_record (config : ConfigLoader.t) (R : Remote)
    (row : Row) (name : string) (chunks : list bytes) (w : World) :
  derive_filename (URL row) (ProductId row) (MediaId row) = Returned name →
  on_get R = GetResponse 200 chunks true →
  ∃ (new : list event) (k : nat),
    trace (upload_file (init config) R row w).2 = trace w ++ new
    ∧ (1 ≤ k ≤ 3)%nat
    ∧ reads new = [file_path_of (init config) name]
    ∧ posts new = replicate k (build_form row (concat chunks) name (clock w))
    ∧ file_contents (build_form row (concat chunks) name (clock w))
      = [concat chunks].
Proof.
  intros Hname Hget.
  destruct (upload_file_after_download (init config) R row name chunks w)
    as (loop & k & Htrace & Hk & Hposts & Hreads & _); [done..|cbn; lia|].
  exists (prepare_events (init config) (URL row) name chunks (clock w) ++ loop), k.
  rewrite reads_app, posts_app, Hreads, Hposts.
  rewrite reads_prepare_events, posts_prepare_events.
  split; [exact Htrace|]. split; [exact Hk|]. by repeat split.
Qed.

(** C10. For a record whose image is fetched, when [upload_file] has
    returned, with a success or with its retries exhausted, the file it
    wrote is on disk at its derived path with the downloaded bytes, and
    every file that was there before is still there. *)
Theorem downloaded_file_remains (config : ConfigLoader.t) (R : Remote)
    (row : Row) (name : string) (chunks : list bytes) (w : World) :
  derive_filename (URL row) (ProductId row) (MediaId row) = Returned name →
  on_get R = GetResponse 200 chunks true →
  ((∃ text, (upload_file (init config) R row w).1 = Returned (uploaded text))
   ∨ (upload_file (init config) R row w).1 = Returned max_retries_reached)
  ∧ files (upload_file (init config) R row w).2
      !! os_path.join (ConfigLoader.image_download_path config) name
    = Some (concat chunks)
  ∧ (∀ file_path, is_Some (files w !! file_path) →
       is_Some (files (upload_file (init config) R row w).2 !! file_path)).
Proof.
  intros Hname Hget.
  destruct (upload_file_after_download (init config) R row name chunks w)
    as (loop & k & _ & _ & _ & _ & _ & Hfiles & Hresult); [done..|cbn; lia|].
  split; [done|]. split.
  - rewrite Hfiles. apply lookup_insert_eq.
  - intros file_path. apply upload_file_keeps_files.
Qed.

End claim_form.

(** ** Failed downloads *)
Section claim_fetch.
Context `{urllib.Validators}.
Import FileUploader.

Lemma omap_write_chunks {A} (f : event → option A) (file_path : string)
    (chunks : list bytes) :
  (∀ chunk, f (WriteChunk file_path chunk) = None) →
  omap f (WriteChunk file_path <$> chunks) = [].
Proof.
  intros Hf. induction chunks as [|chunk rest IH]; [done|].
  cbn [fmap list_fmap omap list_omap]. by rewrite Hf.
Qed.

(** C5, as amended. For a record whose URL [urlparse] accepts and whose
    download fails (the GET raises or answers a status other than 200, the
    file cannot be opened, or the body of a 200 response breaks while it is
    streamed and written), the outcome is the triple "Error", "Failed to
    download image" and the empty text, the GET was issued once, the clock
    and the file are not read and nothing is posted.  No file is written
    when the GET raises or answers another status or when the file cannot
    be opened; when the body breaks, the file opened at the derived path
    stays, with the chunks written before the break. *)
Theorem failed_fetch_outcome (config : ConfigLoader.t) (R : Remote)
    (row : Row) (name : string) (w : World) :
  derive_filename (URL row) (ProductId row) (MediaId row) = Returned name →
  fetch_failed (on_get R) →
  (upload_file (init config) R row w).1
  = Returned ("Error", "Failed to download image", "")
  ∧ (∃ new : list event,
       trace (upload_file (init config) R row w).2 = trace w ++ new
       ∧ gets new = [URL row]
       ∧ clock_reads new = []
       ∧ reads new = []
       ∧ posts new = [])
  ∧ (on_get R = GetRaised
     ∨ on_get R = GetUnwritable
     ∨ (∃ code chunks ok, on_get R = GetResponse code chunks ok ∧ code ≠ 200) →
     files (upload_file (init config) R row w).2 = files w)
  ∧ (∀ chunks, on_get R = GetResponse 200 chunks false →
     files (upload_file (init config) R row w).2
     = <[os_path.join (ConfigLoader.image_download_path config) name
         := concat chunks]> (files w)).
Proof.
  intros Hname Hfail. rewrite (upload_file_run _ _ _ name) by done.
  destruct (on_get R) as [|code chunks ok|] eqn:Hget.
  - cbn [fst snd log trace files]. split; [done|]. split.
    + by exists [HttpGet (URL row)].
    + split; [done|]. intros chunks [=].
  - destruct (Z.eqb_spec code 200) as [->|Hcode].
    + destruct Hfail as [?| ->]; [done|]. cbn [fst snd]. split; [done|]. split.
      * exists (HttpGet (URL row)
                :: OpenWrite (file_path_of (init config) name)
                :: (WriteChunk (file_path_of (init config) name) <$> chunks)).
        cbn [saved log trace]. split; [by rewrite <-app_assoc|].
        unfold gets, clock_reads, reads, posts. cbn [omap list_omap].
        by rewrite !omap_write_chunks.
      * split.
        -- intros [[=]|[[=]|(code & chunks' & ok & [= <- _ _] & Hne)]]. done.
        -- intros chunks' [= <-]. reflexivity.
    + cbn [fst snd log trace files]. split; [done|]. split.
      * by exists [HttpGet (URL row)].
      * split; [done|]. intros chunks' [= -> _ _]. done.
  - cbn [fst snd log trace files]. split; [done|]. split.
    + by exists [HttpGet (URL row)].
    + split; [done|]. intros chunks [=].
Qed.

End claim_fetch.

(** ** The unused setting *)
Section claim_request_delay.
Context `{urllib.Validators} `{Workbook}.

(** [upload_file] reads the upload URL, the API key, the download directory
    and the retry bound of its uploader, and nothing else. *)
Lemma upload_file_request_delay (config : ConfigLoader.t) (d : Q)
    (R : Remote) (row : Row) :
  FileUploader.upload_file
    (FileUploader.init (ConfigLoader.with_request_delay d config)) R row
  = FileUploader.upload_file (FileUploader.init config) R row.
Proof. reflexivity. Qed.

Lemma upload_file_coroutine_request_delay (config : ConfigLoader.t) (d : Q)
    (R : Remote) (row : Row) :
  FileUploader.upload_file_coroutine
    (FileUploader.init (ConfigLoader.with_request_delay d config)) R row
  = FileUploader.upload_file_coroutine (FileUploader.init config) R row.
Proof. reflexivity. Qed.

(** C9. Two runs that differ only in the value of [request_delay] are the
    same run: the same outcomes are gathered, and the same final clock,
    files and sequence of events (requests, writes, sleeps, report) result. *)
Theorem request_delay_unused (config : ConfigLoader.t) (d : Q)
    (table : DataFrame) (remotes : nat → Remote) (w : World) :
  ProcessManager.collect
    (ProcessManager.init (ConfigLoader.with_request_delay d config) table)
    remotes w
  = ProcessManager.collect (ProcessManager.init config table) remotes w
  ∧ ProcessManager.run
      (ProcessManager.init (ConfigLoader.with_request_delay d config) table)
      remotes w
    = ProcessManager.run (ProcessManager.init config table) remotes w.
Proof.
  assert (ProcessManager.tasks
            (ProcessManager.init (ConfigLoader.with_request_delay d config) table)
            remotes table
          = ProcessManager.tasks (ProcessManager.init config table) remotes table)
    as Htasks.
  { unfold ProcessManager.tasks. apply imap_ext. intros i row _.
    apply upload_file_coroutine_request_delay. }
  assert (ProcessManager.collect
            (ProcessManager.init (ConfigLoader.with_request_delay d config) table)
            remotes w
          = ProcessManager.collect (ProcessManager.init config table) remotes w)
    as Hcollect.
  { unfold ProcessManager.collect. cbn [ProcessManager.db ProcessManager.init].
    by rewrite Htasks. }
  split; [exact Hcollect|].
  rewrite !run_after_collect, Hcollect. reflexivity.
Qed.

End claim_request_delay.

(** ** The properties on concrete runs *)
Section scenarios.
Local Existing Instance urllib.lenient.
Local Existing Instance Scenario.plain_workbook.
Import FileUploader Scenario.

(** The first end-to-end run of the specification: the image is served,
    the first POST is answered 200. *)
Example upload_first_try :
  upload_file (init config0) R_ok row1 w0
  = (Returned (uploaded "{'id': 42}"),
     {| clock := 100;
        files := {[ "images/1_9_a.png" := png ]};
        trace := [ HttpGet "http://x/a.png";
                   OpenWrite "images/1_9_a.png";
                   WriteChunk "images/1_9_a.png" png;
                   UtcNow 100;
                   ReadFile "images/1_9_a.png";
                   HttpPost "https://media.example/upload"
                     [("Accept", "application/json"); ("api-key", "key-1")]
                     form1 ] |}).
Proof. vm_compute. reflexivity. Qed.

(** The second one: the image is not found. *)
Example upload_not_found :
  upload_file (init config0) R_404 row1 w0
  = (Returned download_failed,
     {| clock := 100; files := ∅; trace := [HttpGet "http://x/a.png"] |}).
Proof. vm_compute. reflexivity. Qed.

(** C6 on two records that share a product and a base name and differ in
    their media identifier. *)
Lemma derive_filename_witness :
  derive_filename "http://x/a.png" 1 9 = Returned "1_9_a.png"
  ∧ derive_filename "http://y/a.png" 1 10 = Returned "1_10_a.png"
  ∧ "1_9_a.png" ≠ "1_10_a.png".
Proof.
  split; [vm_compute; reflexivity|]. split; [vm_compute; reflexivity|].
  destruct (derive_filename_deterministic_collision_free
              "http://x/a.png" "http://y/a.png" 1 9 1 10
              "1_9_a.png" "1_10_a.png") as (_ & _ & _ & Hdiffer).
  - vm_compute; reflexivity.
  - vm_compute; reflexivity.
  - apply Hdiffer. right. lia.
Defined.

(** C4 on a loop whose first attempt times out and whose second is
    answered 200. *)
Lemma attempts_outcome_witness :
  attempt_failed (on_post R_second 0)
  ∧ on_post R_second 1 = PostResponse 200 "{'id': 42}"
  ∧ (attempts (init config0) R_second (build_headers (init config0))
       form1 3 0 w0).1
    = Returned ("Success", "Uploaded successfully", "{'id': 42}").
Proof.
  split; [exact I|]. split; [reflexivity|].
  destruct (attempts_outcome (init config0) R_second
              (build_headers (init config0)) form1 w0) as [Hfirst _].
  apply (Hfirst 1%nat "{'id': 42}").
  - simpl. lia.
  - intros [|i] Hi; [exact I|lia].
  - reflexivity.
Defined.

(** C3, as amended, on the third end-to-end run of the specification:
    the image is served and every POST is answered 500. *)
Lemma failed_upload_posts_and_delays_witness :
  derive_filename (URL row1) (ProductId row1) (MediaId row1)
  = Returned "1_9_a.png"
  ∧ on_get R_500 = GetResponse 200 [png] true
  ∧ (∀ i, (i < 3)%nat → attempt_failed (on_post R_500 i))
  ∧ (upload_file (init config0) R_500 row1 w0).1 = Returned max_retries_reached
  ∧ clock (upload_file (init config0) R_500 row1 w0).2 = 100 + 7.
Proof.
  assert (∀ i, (i < 3)%nat → attempt_failed (on_post R_500 i)) as Hfail.
  { intros i _. simpl. lia. }
  split; [vm_compute; reflexivity|]. split; [reflexivity|].
  split; [exact Hfail|].
  destruct (failed_upload_posts_and_delays config0 R_500 row1 "1_9_a.png"
              [png] w0) as (Hresult & _ & Hclock).
  - vm_compute; reflexivity.
  - reflexivity.
  - exact Hfail.
  - split; [exact Hresult|exact Hclock].
Defined.

(** Counterexample to C3 as it is stated: with the image served and every POST
    answered 500, three posts are made and the program sleeps after the
    third one as well. *)
Lemma delay_after_final_attempt :
  on_get R_500 = GetResponse 200 [png] true
  ∧ on_post R_500 0 = PostResponse 500 "unavailable"
  ∧ on_post R_500 1 = PostResponse 500 "unavailable"
  ∧ on_post R_500 2 = PostResponse 500 "unavailable"
  ∧ posts (trace (upload_file (init config0) R_500 row1 w0).2)
    = [form1; form1; form1]
  ∧ sleeps (trace (upload_file (init config0) R_500 row1 w0).2) = [1; 2; 4]
  ∧ sleeps (trace (upload_file (init config0) R_500 row1 w0).2) ≠ [1; 2].
Proof. vm_compute. repeat split; discriminate. Qed.

(** C2, as amended, on a run of three attempts. *)
Lemma date_stamped_once_per_record_witness :
  derive_filename (URL row1) (ProductId row1) (MediaId row1)
  = Returned "1_9_a.png"
  ∧ on_get R_retry = GetResponse 200 [png] true
  ∧ ∃ (new : list event) (k : nat),
      trace (upload_file (init config0) R_retry row1 w0).2 = trace w0 ++ new
      ∧ (1 ≤ k ≤ 3)%nat
      ∧ clock_reads new = [clock w0]
      ∧ posts new
        = replicate k (build_form row1 (concat [png]) "1_9_a.png" (clock w0))
      ∧ dates (build_form row1 (concat [png]) "1_9_a.png" (clock w0))
        = [clock w0].
Proof.
  split; [vm_compute; reflexivity|]. split; [reflexivity|].
  apply (date_stamped_once_per_record config0 R_retry row1 "1_9_a.png" [png] w0).
  - vm_compute; reflexivity.
  - reflexivity.
Defined.

(** Counterexample to C2 as it is stated: the upload takes three attempts, two
    sleeps lie between them, the clock is read once, and the three posts
    carry that one reading. *)
Lemma retries_carry_first_date :
  on_get R_retry = GetResponse 200 [png] true
  ∧ length (posts (trace (upload_file (init config0) R_retry row1 w0).2)) = 3%nat
  ∧ clock_reads (trace (upload_file (init config0) R_retry row1 w0).2) = [100]
  ∧ post_dates (trace (upload_file (init config0) R_retry row1 w0).2)
    = [100; 100; 100]
  ∧ ¬ each_later
        (post_dates (trace (upload_file (init config0) R_retry row1 w0).2)).
Proof.
  split; [reflexivity|]. split; [vm_compute; reflexivity|].
  split; [vm_compute; reflexivity|].
  assert (post_dates (trace (upload_file (init config0) R_retry row1 w0).2)
          = [100; 100; 100]) as ->.
  { vm_compute. reflexivity. }
  split; [reflexivity|].
  intros Hlater. specialize (Hlater 0%nat 100 100 eq_refl eq_refl). lia.
Qed.

(** C8, as amended, on a run of three attempts. *)
Lemma payload_read_once_per_record_witness :
  derive_filename (URL row1) (ProductId row1) (MediaId row1)
  = Returned "1_9_a.png"
  ∧ on_get R_retry = GetResponse 200 [png] true
  ∧ ∃ (new : list event) (k : nat),
      trace (upload_file (init config0) R_retry row1 w0).2 = trace w0 ++ new
      ∧ (1 ≤ k ≤ 3)%nat
      ∧ reads new = [file_path_of (init config0) "1_9_a.png"]
      ∧ posts new
        = replicate k (build_form row1 (concat [png]) "1_9_a.png" (clock w0))
      ∧ file_contents (build_form row1 (concat [png]) "1_9_a.png" (clock w0))
        = [concat [png]].
Proof.
  split; [vm_compute; reflexivity|]. split; [reflexivity|].
  apply (payload_read_once_per_record config0 R_retry row1 "1_9_a.png" [png] w0).
  - vm_compute; reflexivity.
  - reflexivity.
Defined.

(** Counterexample to C8 as it is stated: the upload takes three attempts and the
    downloaded file is read once. *)
Lemma file_read_once_for_three_attempts :
  on_get R_retry = GetResponse 200 [png] true
  ∧ length (posts (trace (upload_file (init config0) R_retry row1 w0).2)) = 3%nat
  ∧ reads (trace (upload_file (init config0) R_retry row1 w0).2)
    = ["images/1_9_a.png"]
  ∧ length (reads (trace (upload_file (init config0) R_retry row1 w0).2))
    ≠ length (posts (trace (upload_file (init config0) R_retry row1 w0).2)).
Proof. vm_compute. repeat split; discriminate. Qed.

(** C10 on a run whose retries are exhausted. *)
Lemma downloaded_file_remains_witness :
  derive_filename (URL row1) (ProductId row1) (MediaId row1)
  = Returned "1_9_a.png"
  ∧ on_get R_500 = GetResponse 200 [png] true
  ∧ files (upload_file (init config0) R_500 row1 w0).2 !! "images/1_9_a.png"
    = Some png.
Proof.
  split; [vm_compute; reflexivity|]. split; [reflexivity|].
  destruct (downloaded_file_remains config0 R_500 row1 "1_9_a.png" [png] w0)
    as (_ & Hfile & _).
  - vm_compute; reflexivity.
  - reflexivity.
  - exact Hfile.
Defined.

(** C5, as amended, on the second end-to-end run of the specification:
    the image is not found. *)
Lemma failed_fetch_outcome_witness :
  derive_filename (URL row1) (ProductId row1) (MediaId row1)
  = Returned "1_9_a.png"
  ∧ fetch_failed (on_get R_404)
  ∧ (upload_file (init config0) R_404 row1 w0).1
    = Returned ("Error", "Failed to download image", "")
  ∧ files (upload_file (init config0) R_404 row1 w0).2 = files w0.
Proof.
  assert (fetch_failed (on_get R_404)) as Hfail.
  { simpl. left. lia. }
  split; [vm_compute; reflexivity|]. split; [exact Hfail|].
  destruct (failed_fetch_outcome config0 R_404 row1 "1_9_a.png" w0)
    as (Hresult & _ & Hfiles & _).
  - vm_compute; reflexivity.
  - exact Hfail.
  - split; [exact Hresult|]. apply Hfiles. right. right.
    exists 404, [], true. split; [reflexivity|lia].
Defined.

(** Counterexample to C5 as it is stated: the body of a 200 response breaks after
    its first chunk; the outcome is the download failure and nothing is
    posted, but the file has been created and holds that chunk. *)
Lemma broken_body_leaves_file :
  on_get R_cut = GetResponse 200 [png] false
  ∧ fetch_failed (on_get R_cut)
  ∧ (upload_file (init config0) R_cut row1 w0).1
    = Returned ("Error", "Failed to download image", "")
  ∧ gets (trace (upload_file (init config0) R_cut row1 w0).2)
    = ["http://x/a.png"]
  ∧ posts (trace (upload_file (init config0) R_cut row1 w0).2) = []
  ∧ files w0 !! "images/1_9_a.png" = None
  ∧ files (upload_file (init config0) R_cut row1 w0).2 !! "images/1_9_a.png"
    = Some png.
Proof.
  split; [reflexivity|]. split; [right; reflexivity|].
  vm_compute. repeat split.
Qed.

(** C1, evaluated: two records are uploaded, their two outcomes are
    gathered in row order, and the table handed to the report is the table
    as it was fetched; the same table is reported when both downloads
    fail.  The gathered outcomes never reach the report. *)
Theorem report_without_outcomes :
  (ProcessManager.collect (ProcessManager.init config0 [row1; row2])
     (λ _, R_ok) w0).1
  = Returned [uploaded "{'id': 42}"; uploaded "{'id': 42}"]
  ∧ reports (trace (ProcessManager.run
                      (ProcessManager.init config0 [row1; row2])
                      (λ _, R_ok) w0).2)
    = [[row1; row2]]
  ∧ (ProcessManager.collect (ProcessManager.init config0 [row1; row2])
       (λ _, R_404) w0).1
    = Returned [download_failed; download_failed]
  ∧ reports (trace (ProcessManager.run
                      (ProcessManager.init config0 [row1; row2])
                      (λ _, R_404) w0).2)
    = [[row1; row2]].
Proof. vm_compute. repeat split. Qed.

(** C7, evaluated: a URL with an unmatched bracket makes [urlparse] raise
    before the [try] of [download_image]; the exception leaves
    [upload_file], [gather] and [run], and no report is written, although
    the other record of the batch is uploaded when taken alone. *)
Theorem bad_url_aborts_batch :
  urllib.urlparse_path (URL row_bad) = Raised ValueError
  ∧ (upload_file (init config0) R_ok row_bad w0).1 = Raised ValueError
  ∧ (upload_file (init config0) R_ok row1 w0).1
    = Returned (uploaded "{'id': 42}")
  ∧ (ProcessManager.run (ProcessManager.init config0 [row1; row_bad])
       (λ _, R_ok) w0).1
    = Raised ValueError
  ∧ reports (trace (ProcessManager.run
                      (ProcessManager.init config0 [row1; row_bad])
                      (λ _, R_ok) w0).2)
    = [].
Proof. vm_compute. repeat split. Qed.

End scenarios.

(** * Further properties of the pipeline and of the batch *)

(** ** What one pipeline leaves behind, in every case *)
Section pipeline_effects.
Context `{urllib.Validators}.
Import FileUploader.

Lemma attempts_trace (self : t) (R : Remote) (headers : Headers)
    (form : FormData) (w : World) :
  trace (attempts self R headers form (max_retries self) 0 w).2
  = trace w ++ loop_events self R headers form.
Proof.
  rewrite attempts_run. unfold loop_events.
  destruct (first_success R (max_retries self) 0) as [[k text]|];
    cbn [snd posted log trace]; rewrite failed_rounds_trace;
    by rewrite <-?app_assoc.
Qed.

Lemma upload_file_trace (self : t) (R : Remote) (row : Row) (w : World) :
  trace (upload_file self R row w).2
  = trace w ++ pipeline_events self R row (clock w).
Proof.
  unfold pipeline_events.
  destruct (derive_filename (URL row) (ProductId row) (MediaId row))
    as [name|e] eqn:Hname.
  2:{ rewrite (upload_file_raises _ _ _ e) by done. by rewrite app_nil_r. }
  rewrite (upload_file_run _ _ _ name) by done.
  destruct (on_get R) as [|code chunks ok|]; [done| |done].
  destruct (code =? 200); [|done]. destruct ok.
  - by rewrite attempts_trace, prepared_trace, <-app_assoc.
  - cbn [snd saved log trace]. by rewrite <-app_assoc.
Qed.

Lemma upload_file_disk (self : t) (R : Remote) (row : Row) (w : World) :
  files (upload_file self R row w).2 = disk_after self R row (files w).
Proof.
  unfold disk_after.
  destruct (derive_filename (URL row) (ProductId row) (MediaId row))
    as [name|e] eqn:Hname.
  2:{ by rewrite (upload_file_raises _ _ _ e). }
  rewrite (upload_file_run _ _ _ name) by done.
  destruct (on_get R) as [|code chunks ok|]; [done| |done].
  destruct (code =? 200); [|done]. destruct ok; [|done].
  rewrite attempts_run.
  destruct (first_success _ _ _) as [[k text]|]; cbn [snd posted log files];
    by rewrite failed_rounds_files.
Qed.

Lemma total_app (ds1 ds2 : list Z) : total (ds1 ++ ds2) = total ds1 + total ds2.
Proof.
  unfold total. induction ds1 as [|d ds1 IH]; simpl; [done|]. rewrite IH. lia.
Qed.

Lemma sleeps_prepare_events (self : t) (url name : string)
    (chunks : list bytes) (now : Z) :
  sleeps (prepare_events self url name chunks now) = [].
Proof.
  unfold prepare_events, sleeps. cbn [omap list_omap].
  by rewrite omap_app, omap_write_chunks.
Qed.

Lemma upload_file_clock (self : t) (R : Remote) (row : Row) (w : World) :
  clock (upload_file self R row w).2
  = clock w + total (sleeps (pipeline_events self R row (clock w))).
Proof.
  unfold pipeline_events.
  destruct (derive_filename (URL row) (ProductId row) (MediaId row))
    as [name|e] eqn:Hname.
  2:{ rewrite (upload_file_raises _ _ _ e) by done. simpl. lia. }
  rewrite (upload_file_run _ _ _ name) by done.
  destruct (on_get R) as [|code chunks ok|]; [simpl; lia| |simpl; lia].
  destruct (code =? 200); [|simpl; lia]. destruct ok.
  - rewrite attempts_run, sleeps_app, sleeps_prepare_events. unfold loop_events.
    destruct (first_success _ _ _) as [[k text]|];
      cbn [snd posted log clock app]; rewrite failed_rounds_clock;
      rewrite ?sleeps_app, sleeps_failed_events; cbn [prepared saved log clock].
    + change (sleeps [HttpPost (upload_url self) (build_headers self)
                        (build_form row (concat chunks) name (clock w))])
        with (@nil Z).
      by rewrite app_nil_r.
    + done.
  - cbn [snd saved log clock]. unfold sleeps. cbn [omap list_omap].
    rewrite omap_write_chunks by done. simpl. lia.
Qed.

End pipeline_effects.

(** ** Outcomes *)
Section pipeline_outcomes.
Context `{urllib.Validators}.
Import FileUploader.

Lemma derive_filename_raises (url : string) (pid mid : Z) (e : exn) :
  derive_filename url pid mid = Raised e ↔ urllib.urlparse_path url = Raised e.
Proof.
  unfold derive_filename.
  destruct (urllib.urlparse_path url); split; intros; by simplify_eq.
Qed.

(** X1. [upload_file] raises exactly when [urlparse] rejects the URL of the
    row, with the exception of [urlparse]; no request has been issued then, no
    file opened, written or read, and the clock has not been read: the clock,
    the files and the events are the ones it started with.  (The message
    that [logging.info] writes when [upload_file] is entered is, as every
    call to [logging], left out.) *)
Theorem upload_file_raises_iff_url_rejected (self : t) (R : Remote)
    (row : Row) (w : World) (e : exn) :
  ((upload_file self R row w).1 = Raised e
   ↔ urllib.urlparse_path (URL row) = Raised e)
  ∧ ((upload_file self R row w).1 = Raised e →
     (upload_file self R row w).2 = w).
Proof.
  destruct (derive_filename (URL row) (ProductId row) (MediaId row))
    as [name|e'] eqn:Hname.
  - destruct (upload_file_returns self R row name w Hname) as [result Hres].
    rewrite Hres. split; [|done]. split; [done|].
    intros He.
    apply (derive_filename_raises _ (ProductId row) (MediaId row)) in He.
    congruence.
  - rewrite (upload_file_raises _ _ _ e') by done. cbn [fst snd].
    split; [|done].
    rewrite <-(derive_filename_raises _ (ProductId row) (MediaId row)), Hname.
    split; by intros [= ->].
Qed.

Lemma first_success_some_inv (R : Remote) (n : nat) :
  ∀ attempt k text,
    first_success R n attempt = Some (k, text) →
    (k < n)%nat
    ∧ (∀ i, (i < k)%nat → post_body (on_post R (attempt + i)) = None)
    ∧ post_body (on_post R (attempt + k)) = Some text.
Proof.
  induction n as [|n IH]; intros attempt k text; [done|].
  cbn [first_success].
  destruct (post_body (on_post R attempt)) as [text'|] eqn:Hpost.
  - intros [= <- <-]. rewrite Nat.add_0_r. repeat split; [lia| |done].
    intros i Hi. lia.
  - destruct (first_success R n (S attempt)) as [[k' text']|] eqn:Hrec; [|done].
    intros [= <- <-]. apply IH in Hrec as (Hk & Hfail & Hok).
    repeat split; [lia| |].
    + intros [|i] Hi; [by rewrite Nat.add_0_r|].
      replace (attempt + S i)%nat with (S attempt + i)%nat by lia.
      apply Hfail. lia.
    + by replace (attempt + S k')%nat with (S attempt + k')%nat by lia.
Qed.

Lemma first_success_none_inv (R : Remote) (n : nat) :
  ∀ attempt,
    first_success R n attempt = None →
    ∀ i, (i < n)%nat → post_body (on_post R (attempt + i)) = None.
Proof.
  induction n as [|n IH]; intros attempt Hnone i Hi; [lia|].
  cbn [first_success] in Hnone.
  destruct (post_body (on_post R attempt)) as [text'|] eqn:Hpost; [done|].
  destruct (first_success R n (S attempt)) as [[k' text']|] eqn:Hrec; [done|].
  destruct i as [|i]; [by rewrite Nat.add_0_r|].
  replace (attempt + S i)%nat with (S attempt + i)%nat by lia.
  apply IH; [done|lia].
Qed.

(** X2. The three outcomes of a row whose URL parses, each with what
    produces it: the triple "Error", "Failed to download image", "" exactly
    when the GET raises or answers another status than 200, the file cannot
    be opened, or the body breaks while it is streamed and written; the
    triple "Success", "Uploaded successfully" and a text exactly when the
    image was downloaded and that text came with the first 200 among the
    [max_retries] attempts; the triple "Error", "Max retries reached", ""
    exactly when the image was downloaded and none of the [max_retries]
    attempts was answered 200. *)
Theorem upload_file_outcome_cases (self : t) (R : Remote) (row : Row)
    (name : string) (w : World) :
  derive_filename (URL row) (ProductId row) (MediaId row) = Returned name →
  ((upload_file self R row w).1
   = Returned ("Error", "Failed to download image", "")
   ↔ fetch_failed (on_get R))
  ∧ (∀ text,
       (upload_file self R row w).1
       = Returned ("Success", "Uploaded successfully", text)
       ↔ (∃ chunks, on_get R = GetResponse 200 chunks true)
         ∧ ∃ k, (k < max_retries self)%nat
                ∧ (∀ i, (i < k)%nat → attempt_failed (on_post R i))
                ∧ on_post R k = PostResponse 200 text)
  ∧ ((upload_file self R row w).1
     = Returned ("Error", "Max retries reached", "")
     ↔ (∃ chunks, on_get R = GetResponse 200 chunks true)
       ∧ ∀ i, (i < max_retries self)%nat → attempt_failed (on_post R i)).
Proof.
  intros Hname. rewrite (upload_file_run _ _ _ name) by done.
  destruct (on_get R) as [|code chunks ok|] eqn:Hget.
  { cbn [fst fetch_failed]. split; [done|]. split.
    - intros text. split; [done|]. by intros [[chunks [=]] _].
    - split; [done|]. by intros [[chunks [=]] _]. }
  2:{ cbn [fst fetch_failed]. split; [done|]. split.
      - intros text. split; [done|]. by intros [[chunks [=]] _].
      - split; [done|]. by intros [[chunks [=]] _]. }
  destruct (Z.eqb_spec code 200) as [->|Hcode].
  2:{ cbn [fst fetch_failed]. split; [by split; auto|]. split.
      - intros text. split; [done|]. intros [[chunks' [= ? ? ?]] _]. done.
      - split; [done|]. intros [[chunks' [= ? ? ?]] _]. done. }
  destruct ok.
  2:{ cbn [fst fetch_failed]. split; [by split; auto|]. split.
      - intros text. split; [done|]. by intros [[chunks' [=]] _].
      - split; [done|]. by intros [[chunks' [=]] _]. }
  rewrite attempts_run. cbn [fetch_failed].
  assert (∀ k' text',
    (k' < max_retries self)%nat →
    (∀ i, (i < k')%nat → attempt_failed (on_post R i)) →
    on_post R k' = PostResponse 200 text' →
    first_success R (max_retries self) 0 = Some (k', text')) as Hsome.
  { intros k' text' Hk' Hfail' Hok'. apply first_success_some; [done| |].
    - intros i Hi. by apply post_body_failed, Hfail'.
    - by apply post_body_ok. }
  assert ((∀ i, (i < max_retries self)%nat → attempt_failed (on_post R i)) →
          first_success R (max_retries self) 0 = None) as Hnone.
  { intros Hfail'. apply first_success_none.
    intros i Hi. by apply post_body_failed, Hfail'. }
  destruct (first_success R (max_retries self) 0) as [[k text]|] eqn:Hfirst;
    cbn [fst].
  - split; [split; [done|by intros [?|?]]|]. split.
    + intros text'. split.
      * intros [= <-].
        apply first_success_some_inv in Hfirst as (Hk & Hfail & Hok).
        split; [by exists chunks|]. exists k. split; [done|]. split.
        -- intros i Hi. by apply post_body_failed, Hfail.
        -- by apply post_body_ok.
      * intros [_ (k' & Hk' & Hfail' & Hok')].
        specialize (Hsome k' text' Hk' Hfail' Hok'). by simplify_eq.
    + split; [done|]. intros [_ Hfail']. by specialize (Hnone Hfail').
  - split; [split; [done|by intros [?|?]]|]. split.
    + intros text'. split; [done|].
      intros [_ (k' & Hk' & Hfail' & Hok')].
      by specialize (Hsome k' text' Hk' Hfail' Hok').
    + split; [|done]. intros _. split; [by exists chunks|].
      intros i Hi. apply post_body_failed.
      by apply (first_success_none_inv R _ 0 Hfirst i).
Qed.

(** X3. [download_image] never raises once the URL has parsed, and it hands
    back a path exactly when a 200 response arrived, the file could be opened
    and the body was streamed and written to its end; that path then names a
    file holding the whole body, whatever the disk held before. *)
Theorem download_image_returns_saved_path (self : t) (R : Remote)
    (url : string) (pid mid : Z) (name : string) (w : World) :
  derive_filename url pid mid = Returned name →
  (∃ result, (download_image self R url pid mid w).1 = Returned result)
  ∧ (∀ file_path file_name,
       (download_image self R url pid mid w).1
       = Returned (Some (file_path, file_name))
       ↔ file_path = os_path.join (image_download_path self) name
         ∧ file_name = name
         ∧ ∃ chunks, on_get R = GetResponse 200 chunks true)
  ∧ (∀ file_path file_name chunks,
       (download_image self R url pid mid w).1
       = Returned (Some (file_path, file_name)) →
       on_get R = GetResponse 200 chunks true →
       files (download_image self R url pid mid w).2 !! file_path
       = Some (concat chunks)).
Proof.
  intros Hname. rewrite (download_image_run _ _ _ _ _ name) by done.
  unfold file_path_of.
  destruct (on_get R) as [|code chunks ok|].
  { cbn [fst]. split; [by eexists|]. split.
    - intros fp fn. split; [done|]. by intros (_ & _ & chunks & [=]).
    - by intros fp fn chunks [=]. }
  2:{ cbn [fst]. split; [by eexists|]. split.
      - intros fp fn. split; [done|]. by intros (_ & _ & chunks & [=]).
      - by intros fp fn chunks [=]. }
  destruct (Z.eqb_spec code 200) as [->|Hcode].
  2:{ cbn [fst]. split; [by eexists|]. split.
      - intros fp fn. split; [done|].
        intros (_ & _ & chunks' & [= ? ? ?]). done.
      - by intros fp fn chunks' [=]. }
  destruct ok; cbn [fst snd].
  - split; [by eexists|]. split.
    + intros fp fn. split.
      * intros [= <- <-]. repeat split. by exists chunks.
      * by intros (-> & -> & _).
    + intros fp fn chunks' [= <- <-] [= <-].
      cbn [saved files log]. apply lookup_insert_eq.
  - split; [by eexists|]. split.
    + intros fp fn. split; [done|]. by intros (_ & _ & chunks' & [=]).
    + by intros fp fn chunks' [=].
Qed.

(** X4. Running the pipeline of a row a second time, against the same network
    answers, leaves the disk as the first run left it. *)
Theorem upload_file_twice_same_disk (self : t) (R : Remote) (row : Row)
    (w : World) :
  files (upload_file self R row (upload_file self R row w).2).2
  = files (upload_file self R row w).2.
Proof.
  rewrite !upload_file_disk. unfold disk_after.
  destruct (derive_filename _ _ _) as [name|e]; [|done].
  destruct (on_get R) as [|code chunks ok|]; [done| |done].
  destruct (code =? 200); [|done]. apply insert_insert_eq.
Qed.

End pipeline_outcomes.

(** ** Bounds on what one record costs *)
Section pipeline_bounds.
Context `{urllib.Validators}.
Import FileUploader.

Lemma total_backoff (n : nat) :
  ∀ attempt, total (backoff <$> seq attempt n)
             = 2 ^ Z.of_nat attempt * (2 ^ Z.of_nat n - 1).
Proof.
  induction n as [|n IH]; intros attempt.
  - simpl. lia.
  - cbn [seq fmap list_fmap]. unfold total in *. cbn [foldr]. rewrite IH.
    unfold backoff. rewrite !Nat2Z.inj_succ, !Z.pow_succ_r by lia. lia.
Qed.

Lemma total_backoff_0 (n : nat) :
  total (backoff <$> seq 0 n) = 2 ^ Z.of_nat n - 1.
Proof. rewrite total_backoff. change (2 ^ Z.of_nat 0) with 1. lia. Qed.

(** X5. The time the retry loop sleeps: [2^k - 1] seconds before a success at
    attempt [k], and [2^max_retries - 1] seconds when every attempt fails. *)
Theorem attempts_elapsed (self : t) (R : Remote) (headers : Headers)
    (form : FormData) (w : World) :
  (∀ k text,
     (k < max_retries self)%nat →
     (∀ i, (i < k)%nat → attempt_failed (on_post R i)) →
     on_post R k = PostResponse 200 text →
     clock (attempts self R headers form (max_retries self) 0 w).2
     = clock w + (2 ^ Z.of_nat k - 1))
  ∧ ((∀ i, (i < max_retries self)%nat → attempt_failed (on_post R i)) →
     clock (attempts self R headers form (max_retries self) 0 w).2
     = clock w + (2 ^ Z.of_nat (max_retries self) - 1)).
Proof.
  split.
  - intros k text Hk Hfail Hok. rewrite attempts_run.
    rewrite (first_success_some R _ 0 k text); [|done| |].
    + cbn [snd posted log clock].
      by rewrite failed_rounds_clock, <-total_backoff_0.
    + intros i Hi. by apply post_body_failed, Hfail.
    + by apply post_body_ok.
  - intros Hfail. rewrite attempts_run, first_success_none.
    + cbn [snd]. by rewrite failed_rounds_clock, <-total_backoff_0.
    + intros i Hi. by apply post_body_failed, Hfail.
Qed.

Lemma gets_failed_events (self : t) (headers : Headers) (form : FormData)
    (n attempt : nat) :
  gets (failed_events self headers form n attempt) = [].
Proof.
  unfold failed_events. revert attempt.
  induction n as [|n IH]; intros attempt; [done|]. apply IH.
Qed.

Lemma gets_prepare_events (self : t) (url name : string)
    (chunks : list bytes) (now : Z) :
  gets (prepare_events self url name chunks now) = [url].
Proof.
  unfold prepare_events, gets. cbn [omap list_omap].
  by rewrite omap_app, omap_write_chunks.
Qed.

(** The loop posts the one form between one and [max_retries] times (never,
    when [max_retries] is zero), sleeps after each post that failed and does
    nothing else. *)
Lemma loop_events_counts (self : t) (R : Remote) (headers : Headers)
    (form : FormData) :
  ∃ p s : nat,
    posts (loop_events self R headers form) = replicate p form
    ∧ sleeps (loop_events self R headers form) = backoff <$> seq 0 s
    ∧ (s ≤ p ≤ max_retries self)%nat
    ∧ gets (loop_events self R headers form) = []
    ∧ reads (loop_events self R headers form) = []
    ∧ clock_reads (loop_events self R headers form) = [].
Proof.
  unfold loop_events.
  destruct (first_success R (max_retries self) 0) as [[k text]|] eqn:Hfirst.
  - apply first_success_lt in Hfirst. exists (S k), k.
    rewrite posts_app, sleeps_app, gets_app, reads_app, clock_reads_app.
    rewrite posts_failed_events, sleeps_failed_events, gets_failed_events,
      reads_failed_events, clock_reads_failed_events.
    cbn [posts sleeps gets reads clock_reads omap list_omap].
    rewrite app_nil_r, <-replicate_S_end. repeat split; (done || lia).
  - exists (max_retries self), (max_retries self).
    rewrite posts_failed_events, sleeps_failed_events, gets_failed_events,
      reads_failed_events, clock_reads_failed_events.
    repeat split; (done || lia).
Qed.

(** X6. Whatever the network does, one call of [upload_file] issues at most
    one GET, reads the clock and the downloaded file at most once, posts at
    most [max_retries] times, sleeps at most once per post, and keeps the
    clock between its start and [2^max_retries - 1] seconds later. *)
Theorem upload_file_bounds (self : t) (R : Remote) (row : Row) (w : World) :
  ∃ new : list event,
    trace (upload_file self R row w).2 = trace w ++ new
    ∧ (length (gets new) ≤ 1)%nat
    ∧ (length (clock_reads new) ≤ 1)%nat
    ∧ (length (reads new) ≤ 1)%nat
    ∧ (length (posts new) ≤ max_retries self)%nat
    ∧ (length (sleeps new) ≤ length (posts new))%nat
    ∧ clock w ≤ clock (upload_file self R row w).2
      ≤ clock w + (2 ^ Z.of_nat (max_retries self) - 1).
Proof.
  exists (pipeline_events self R row (clock w)).
  split; [apply upload_file_trace|]. rewrite upload_file_clock.
  assert (0 ≤ 2 ^ Z.of_nat (max_retries self) - 1) as Hpow.
  { pose proof (Z.pow_pos_nonneg 2 (Z.of_nat (max_retries self))). lia. }
  unfold pipeline_events.
  destruct (derive_filename _ _ _) as [name|e].
  2:{ simpl. repeat split; lia. }
  destruct (on_get R) as [|code chunks ok|].
  { simpl. repeat split; lia. }
  2:{ simpl. repeat split; lia. }
  destruct (code =? 200).
  2:{ simpl. repeat split; lia. }
  destruct ok.
  - destruct (loop_events_counts self R (build_headers self)
                (build_form row (concat chunks) name (clock w)))
      as (p & s & Hposts & Hsleeps & Hps & Hgets & Hreads & Hclocks).
    rewrite gets_app, clock_reads_app, reads_app, posts_app, sleeps_app.
    rewrite gets_prepare_events, clock_reads_prepare_events,
      reads_prepare_events, posts_prepare_events, sleeps_prepare_events.
    rewrite Hposts, Hsleeps, Hgets, Hreads, Hclocks.
    cbn [app]. rewrite length_fmap, length_seq, length_replicate.
    rewrite total_backoff_0.
    assert (2 ^ Z.of_nat s ≤ 2 ^ Z.of_nat (max_retries self)).
    { apply Z.pow_le_mono_r; lia. }
    pose proof (Z.pow_pos_nonneg 2 (Z.of_nat s)).
    repeat split; simpl; lia.
  - unfold gets, clock_reads, reads, posts, sleeps. cbn [omap list_omap].
    rewrite !omap_write_chunks by done. simpl. repeat split; lia.
Qed.

End pipeline_bounds.

(** ** The derived file name and path *)
Section derived_names.
Context `{urllib.Validators}.
Import FileUploader.

Lemma contains_false (p : ascii → bool) (s : string) :
  pystr.contains p s = false ↔ pystr.all (λ c, negb (p c)) s = true.
Proof. unfold pystr.contains. apply negb_false_iff. Qed.

Lemma all_impl (p q : ascii → bool) (s : string) :
  (∀ c, p c = true → q c = true) →
  pystr.all p s = true → pystr.all q s = true.
Proof.
  intros Hpq. induction s as [|a s IH]; [done|]. cbn [pystr.all].
  intros [Ha Hs]%andb_prop. by rewrite (Hpq a Ha), IH.
Qed.

Lemma all_app (p : ascii → bool) (s t : string) :
  pystr.all p (s +:+ t) = pystr.all p s && pystr.all p t.
Proof.
  induction s as [|a s IH]; [done|].
  rewrite app_cons. cbn [pystr.all]. by rewrite IH, andb_assoc.
Qed.

Lemma all_take (p : ascii → bool) (s : string) :
  ∀ n, pystr.all p s = true → pystr.all p (pystr.take n s) = true.
Proof.
  induction s as [|a s IH]; intros [|n]; try done.
  cbn [pystr.all pystr.take]. intros [Ha Hs]%andb_prop. by rewrite Ha, IH.
Qed.

Lemma all_drop (p : ascii → bool) (s : string) :
  ∀ n, pystr.all p s = true → pystr.all p (pystr.drop n s) = true.
Proof.
  induction s as [|a s IH]; intros [|n]; try done.
  cbn [pystr.all pystr.drop]. intros [Ha Hs]%andb_prop. by apply IH.
Qed.

Lemma find_none (p : ascii → bool) (s : string) :
  pystr.find p s = None → pystr.all (λ c, negb (p c)) s = true.
Proof.
  induction s as [|a s IH]; [done|]. cbn [pystr.find pystr.all].
  destruct (p a); [done|].
  destruct (pystr.find p s); [done|]. intros _. by rewrite IH.
Qed.

Lemma find_take (p : ascii → bool) (s : string) :
  ∀ i, pystr.find p s = Some i →
       pystr.all (λ c, negb (p c)) (pystr.take i s) = true.
Proof.
  induction s as [|a s IH]; intros i; [done|]. cbn [pystr.find].
  destruct (p a) eqn:Ha; [by intros [= <-]|].
  destruct (pystr.find p s) as [j|]; [|done].
  intros [= <-]. cbn [pystr.take pystr.all]. by rewrite Ha, IH.
Qed.

Lemma rfind_none (p : ascii → bool) (s : string) :
  pystr.rfind p s = None → pystr.all (λ c, negb (p c)) s = true.
Proof.
  induction s as [|a s IH]; [done|]. cbn [pystr.rfind pystr.all].
  destruct (pystr.rfind p s); [done|].
  destruct (p a); [done|]. intros _. by rewrite IH.
Qed.

Lemma rfind_drop (p : ascii → bool) (s : string) :
  ∀ i, pystr.rfind p s = Some i →
       pystr.all (λ c, negb (p c)) (pystr.drop (S i) s) = true.
Proof.
  induction s as [|a s IH]; intros i; [done|]. cbn [pystr.rfind].
  destruct (pystr.rfind p s) as [j|] eqn:Hrec.
  - intros [= <-]. cbn [pystr.drop]. by apply IH.
  - destruct (p a); [|done]. intros [= <-]. cbn [pystr.drop].
    by apply rfind_none.
Qed.

(** The part of a text before its first [c] holds no [c]. *)
Lemma split_once_fst_free (c : ascii) (s : string) :
  pystr.all (λ d, negb (pystr.char c d)) (urllib.split_once c s).1 = true.
Proof.
  unfold urllib.split_once.
  destruct (pystr.find (pystr.char c) s) as [i|] eqn:Hfind; cbn [fst].
  - by apply find_take.
  - by apply find_none.
Qed.

Lemma split_once_fst_all (p : ascii → bool) (c : ascii) (s : string) :
  pystr.all p s = true → pystr.all p (urllib.split_once c s).1 = true.
Proof.
  intros Hs. unfold urllib.split_once.
  destruct (pystr.find (pystr.char c) s); cbn [fst]; [by apply all_take|done].
Qed.

(** The path [urlsplit] returns holds neither [?] nor [#]. *)
Lemma urlsplit_path_plain (url : string) (r : urllib.SplitResult) :
  urllib.urlsplit url = Returned r →
  pystr.all (λ c, negb (pystr.char "?" c)) (urllib.path r) = true
  ∧ pystr.all (λ c, negb (pystr.char "#" c)) (urllib.path r) = true.
Proof.
  unfold urllib.urlsplit.
  destruct (urllib.split_scheme _) as [scheme rest].
  destruct (if pystr.startswith "//" rest then _ else _) as [netloc rest'].
  destruct (_ || _); [done|]. destruct (_ && _); [done|].
  pose proof (split_once_fst_free "#" rest') as Hfrag.
  destruct (urllib.split_once "#" rest') as [before_fragment fragment].
  pose proof (split_once_fst_free "?" before_fragment) as Hquery.
  pose proof (split_once_fst_all _ "?" before_fragment Hfrag) as Hfrag'.
  destruct (urllib.split_once "?" before_fragment) as [path query].
  destruct (urllib.checknetloc netloc); [|done].
  intros [= <-]. done.
Qed.

Lemma splitparams_all (p : ascii → bool) (s : string) :
  pystr.all p s = true → pystr.all p (urllib.splitparams s) = true.
Proof.
  intros Hs. unfold urllib.splitparams, pystr.find_from.
  destruct (pystr.rfind _ s) as [slash|].
  - destruct (pystr.find _ (pystr.drop slash s)); cbn [fmap option_fmap option_map];
      [by apply all_take|done].
  - destruct (pystr.find _ s); [by apply all_take|done].
Qed.

Lemma urlparse_path_plain (url p : string) :
  urllib.urlparse_path url = Returned p →
  pystr.all (λ c, negb (pystr.char "?" c)) p = true
  ∧ pystr.all (λ c, negb (pystr.char "#" c)) p = true.
Proof.
  unfold urllib.urlparse_path.
  destruct (urllib.urlsplit url) as [r|e] eqn:Hsplit; [|done].
  apply urlsplit_path_plain in Hsplit as [Hq Hf].
  destruct (_ && _); intros [= <-]; [|done].
  split; by apply splitparams_all.
Qed.

Lemma basename_all (p : ascii → bool) (s : string) :
  pystr.all p s = true → pystr.all p (os_path.basename s) = true.
Proof.
  intros Hs. unfold os_path.basename.
  destruct (pystr.rfind _ s); [by apply all_drop|done].
Qed.

Lemma basename_no_slash (s : string) :
  pystr.all (λ c, negb (pystr.char "/" c)) (os_path.basename s) = true.
Proof.
  unfold os_path.basename.
  destruct (pystr.rfind _ s) as [i|] eqn:Hr;
    [by apply rfind_drop|by apply rfind_none].
Qed.

Lemma new_filename_all (p : ascii → bool) (pid mid : Z) (base : string) :
  (∀ c, is_digit_or_dash c = true → p c = true) →
  p "_"%char = true →
  pystr.all p base = true →
  pystr.all p (new_filename pid mid base) = true.
Proof.
  intros Hdigits Hsep Hbase. unfold new_filename.
  rewrite !all_app. cbn [pystr.all].
  rewrite !(all_impl _ _ _ Hdigits (pretty_Z_digits _)), Hsep, Hbase. done.
Qed.

(** X7. The file of a record lies directly in the download directory: its name
    holds no ["/"], nor the ["?"] or ["#"] of a query or fragment of the URL,
    and its path is the directory followed by the name, with a ["/"] put
    between them unless the directory is empty or ends with one. *)
Theorem derived_file_in_download_directory (self : t) (url : string)
    (pid mid : Z) (name : string) :
  derive_filename url pid mid = Returned name →
  pystr.contains (pystr.char "/") name = false
  ∧ pystr.contains (pystr.char "?") name = false
  ∧ pystr.contains (pystr.char "#") name = false
  ∧ (os_path.join (image_download_path self) name
     = image_download_path self +:+ name
     ∨ os_path.join (image_download_path self) name
       = image_download_path self +:+ "/" +:+ name).
Proof.
  unfold derive_filename.
  destruct (urllib.urlparse_path url) as [p|e] eqn:Hparse; [|done].
  intros [= <-]. apply urlparse_path_plain in Hparse as [Hq Hf].
  rewrite !contains_false.
  assert (∀ sep : ascii,
    is_digit_or_dash sep = false → sep ≠ "_"%char →
    ∀ c, is_digit_or_dash c = true → negb (pystr.char sep c) = true) as Hdig.
  { intros sep Hsep _ c Hc. unfold pystr.char.
    destruct (Ascii.eqb_spec sep c) as [->|]; [congruence|done]. }
  split; [|split; [|split]].
  - apply new_filename_all; [by apply Hdig|done|apply basename_no_slash].
  - apply new_filename_all; [by apply Hdig|done|by apply basename_all].
  - apply new_filename_all; [by apply Hdig|done|by apply basename_all].
  - unfold os_path.join.
    assert (pystr.startswith "/" (new_filename pid mid (os_path.basename p))
            = false) as ->.
    { unfold new_filename. pose proof (pretty_Z_digits pid) as Hpid.
      destruct (pretty pid) as [|a rest]; [done|].
      rewrite app_cons. cbn [pystr.all] in Hpid.
      apply andb_prop in Hpid as [Ha _].
      unfold pystr.startswith. cbn [String.prefix].
      destruct (ascii_dec "/" a) as [<-|]; [done|done]. }
    destruct (_ || _); auto.
Qed.

(** X8. Two records get the same file name exactly when they have the same
    product identifier, the same media identifier and URLs whose paths end in
    the same base name. *)
Theorem same_name_iff_same_ids_and_basename (url1 url2 path1 path2 : string)
    (pid1 mid1 pid2 mid2 : Z) :
  urllib.urlparse_path url1 = Returned path1 →
  urllib.urlparse_path url2 = Returned path2 →
  derive_filename url1 pid1 mid1 = derive_filename url2 pid2 mid2
  ↔ pid1 = pid2 ∧ mid1 = mid2
    ∧ os_path.basename path1 = os_path.basename path2.
Proof.
  intros H1 H2. unfold derive_filename. rewrite H1, H2. split.
  - intros [= Heq]. by apply new_filename_inj.
  - by intros (-> & -> & ->).
Qed.

End derived_names.

(** ** The batch as a whole *)
Section batch_effects.
Context `{urllib.Validators} `{Workbook}.
Import FileUploader.

Lemma pipeline_events_allowed (self : t) (R : Remote) (row : Row) (now : Z) :
  Forall (pipeline_event self row) (pipeline_events self R row now).
Proof.
  unfold pipeline_events.
  destruct (derive_filename (URL row) (ProductId row) (MediaId row))
    as [name|e] eqn:Hname; [|constructor].
  assert (∀ chunks,
    Forall (pipeline_event self row)
      (WriteChunk (file_path_of self name) <$> chunks)) as Hchunks.
  { intros chunks. apply Forall_fmap, Forall_forall. intros chunk _.
    by exists name. }
  destruct (on_get R) as [|code chunks ok|];
    [by repeat constructor| |by repeat constructor].
  destruct (code =? 200); [|by repeat constructor]. destruct ok.
  - apply Forall_app. split.
    + unfold prepare_events. repeat constructor; [by exists name|].
      apply Forall_app. split; [apply Hchunks|].
      repeat constructor. by exists name.
    + assert (∀ n a, Forall (pipeline_event self row)
        (failed_events self (build_headers self)
           (build_form row (concat chunks) name now) n a)) as Hfailed.
      { intros n. unfold failed_events.
        induction n as [|n IH]; intros a; [constructor|].
        cbn [seq flat_map]. repeat constructor. apply IH. }
      unfold loop_events. destruct (first_success _ _ _) as [[k text]|].
      * apply Forall_app. split; [apply Hfailed|]. by repeat constructor.
      * apply Hfailed.
  - repeat constructor; [by exists name|apply Hchunks].
Qed.

(** Everything the gathering adds to the trace is an event of the pipeline
    of some row of the table. *)
Lemma collect_trace (self : ProcessManager.t) (remotes : nat → Remote)
    (w : World) :
  ∃ new,
    trace (ProcessManager.collect self remotes w).2 = trace w ++ new
    ∧ Forall (λ e, ∃ row, row ∈ ProcessManager.db self
                          ∧ pipeline_event (ProcessManager.uploader self) row e)
        new.
Proof.
  by destruct (collect_spec self remotes w) as [[Htrace _] _].
Qed.

Lemma pipeline_events_no_report (self : ProcessManager.t) (new : list event) :
  Forall (λ e, ∃ row, row ∈ ProcessManager.db self
                      ∧ pipeline_event (ProcessManager.uploader self) row e)
    new →
  reports new = [] ∧ DbClose ∉ new.
Proof.
  induction 1 as [|e new (row & _ & He) _ [IH1 IH2]]; [split; [done|]|].
  - apply not_elem_of_nil.
  - split.
    + unfold reports in *. cbn [omap list_omap]. rewrite IH1.
      by destruct e.
    + rewrite not_elem_of_cons. split; [|done]. by destruct e.
Qed.

(** X9. When [urlparse] accepts the URL of every row, [run] returns, and what
    it adds to the trace ends with the fetched table being written to
    ["output.xlsx"] and then the database connection being closed; nothing
    before these two events writes a report or closes the connection. *)
Theorem run_ends_with_report_and_close (self : ProcessManager.t)
    (remotes : nat → Remote) (w : World) :
  (∀ row, row ∈ ProcessManager.db self → url_parses (URL row) = true) →
  (ProcessManager.run self remotes w).1 = Returned ()
  ∧ ∃ new,
      trace (ProcessManager.run self remotes w).2
      = trace w ++ new
        ++ [ToExcel "output.xlsx" (ProcessManager.db self); DbClose]
      ∧ reports new = []
      ∧ DbClose ∉ new.
Proof.
  intros Hparse. rewrite run_after_collect.
  destruct (collect_returns_all self remotes w) as (results & Hres & _).
  { intros row Hrow. specialize (Hparse row Hrow).
    unfold url_parses, derive_filename in *.
    destruct (urllib.urlparse_path (URL row)); [by eexists|done]. }
  destruct (collect_trace self remotes w) as (new & Htrace & Hnew).
  destruct (ProcessManager.collect self remotes w) as [[results'|e] w'];
    [|done].
  cbn [fst snd log trace set_files] in *. split; [done|]. exists new.
  rewrite Htrace, <-!app_assoc. split; [done|].
  by apply (pipeline_events_no_report self).
Qed.

(** X10. When [urlparse] rejects the URL of some row, [run] raises: no report
    is written and the database connection is not closed. *)
Theorem run_aborts_without_report_or_close (self : ProcessManager.t)
    (remotes : nat → Remote) (w : World) (row : Row) :
  row ∈ ProcessManager.db self →
  url_parses (URL row) = false →
  ∃ e new,
    (ProcessManager.run self remotes w).1 = Raised e
    ∧ trace (ProcessManager.run self remotes w).2 = trace w ++ new
    ∧ reports new = []
    ∧ DbClose ∉ new.
Proof.
  intros Hrow Hbad. rewrite run_after_collect.
  assert (∃ e0, derive_filename (URL row) (ProductId row) (MediaId row)
                = Raised e0) as [e0 He0].
  { unfold url_parses in Hbad. unfold derive_filename.
    destruct (urllib.urlparse_path (URL row)) as [p|e0]; [done|].
    by exists e0. }
  destruct (collect_raises self remotes w row e0 Hrow He0) as [e He].
  destruct (collect_trace self remotes w) as (new & Htrace & Hnew).
  destruct (ProcessManager.collect self remotes w) as [[results|e'] w'];
    [done|].
  cbn [fst snd] in *. exists e', new. split; [done|]. split; [done|].
  by apply (pipeline_events_no_report self).
Qed.

(** X11. Every request of a run is the GET of the URL of a row or a POST to
    the configured upload URL with the [Accept] and [api-key] headers; every
    file written or read is the derived path of a row; the only table written
    is the fetched one, to ["output.xlsx"]. *)
Theorem run_requests_and_files (self : ProcessManager.t)
    (remotes : nat → Remote) (w : World) :
  ∃ new,
    trace (ProcessManager.run self remotes w).2 = trace w ++ new
    ∧ ∀ e, e ∈ new →
        match e with
        | HttpGet url => ∃ row, row ∈ ProcessManager.db self ∧ url = URL row
        | HttpPost url headers _ =>
            url = upload_url (ProcessManager.uploader self)
            ∧ headers = [ ("Accept", "application/json");
                          ("api-key", api_key (ProcessManager.uploader self)) ]
        | OpenWrite file_path | WriteChunk file_path _ | ReadFile file_path =>
            ∃ row name,
              row ∈ ProcessManager.db self
              ∧ derive_filename (URL row) (ProductId row) (MediaId row)
                = Returned name
              ∧ file_path
                = os_path.join
                    (image_download_path (ProcessManager.uploader self)) name
        | ToExcel file df =>
            file = "output.xlsx" ∧ df = ProcessManager.db self
        | UtcNow _ | Sleep _ | DbClose => True
        end.
Proof.
  rewrite run_after_collect.
  destruct (collect_trace self remotes w) as (new & Htrace & Hnew).
  assert (∀ e, e ∈ new →
    match e with
    | HttpGet url => ∃ row, row ∈ ProcessManager.db self ∧ url = URL row
    | HttpPost url headers _ =>
        url = upload_url (ProcessManager.uploader self)
        ∧ headers = [ ("Accept", "application/json");
                      ("api-key", api_key (ProcessManager.uploader self)) ]
    | OpenWrite file_path | WriteChunk file_path _ | ReadFile file_path =>
        ∃ row name,
          row ∈ ProcessManager.db self
          ∧ derive_filename (URL row) (ProductId row) (MediaId row)
            = Returned name
          ∧ file_path
            = os_path.join
                (image_download_path (ProcessManager.uploader self)) name
    | ToExcel file df => file = "output.xlsx" ∧ df = ProcessManager.db self
    | UtcNow _ | Sleep _ | DbClose => True
    end) as Hevents.
  { intros e He. rewrite Forall_forall in Hnew.
    destruct (Hnew e He) as (row & Hrow & Hevent).
    destruct e; cbn [pipeline_event] in Hevent; try done.
    - by exists row.
    - destruct Hevent as (name & ? & ?). by exists row, name.
    - destruct Hevent as (name & ? & ?). by exists row, name.
    - destruct Hevent as (name & ? & ?). by exists row, name. }
  destruct (ProcessManager.collect self remotes w) as [[results|e'] w'];
    cbn [snd log trace set_files] in *.
  - exists (new ++ [ToExcel "output.xlsx" (ProcessManager.db self); DbClose]).
    rewrite Htrace, <-!app_assoc. split; [done|].
    intros e [He|He]%elem_of_app; [by apply Hevents|].
    apply elem_of_cons in He as [->|He]; [done|].
    apply elem_of_cons in He as [->|He]; [done|].
    by apply elem_of_nil in He.
  - by exists new.
Qed.

(** X12. A path that is neither ["output.xlsx"], which [run] overwrites with
    the report, nor ["process.log"], to which [logging] appends, nor the
    derived path of a row of the table holds after [run] what it held
    before. *)
Theorem run_leaves_other_paths (self : ProcessManager.t)
    (remotes : nat → Remote) (w : World) (file_path : string) :
  file_path ≠ "output.xlsx" →
  file_path ≠ "process.log" →
  (∀ row name,
     row ∈ ProcessManager.db self →
     derive_filename (URL row) (ProductId row) (MediaId row) = Returned name →
     file_path
     ≠ os_path.join (image_download_path (ProcessManager.uploader self)) name) →
  files (ProcessManager.run self remotes w).2 !! file_path
  = files w !! file_path.
Proof.
  intros Hreport _ Hother. rewrite run_after_collect.
  assert (files (ProcessManager.collect self remotes w).2 !! file_path
          = files w !! file_path) as Hcollect.
  { destruct (collect_spec self remotes w) as [[_ Hfiles] _].
    by apply Hfiles. }
  destruct (ProcessManager.collect self remotes w) as [[results|e'] w'];
    cbn [snd files log set_files] in *; [|done].
  by rewrite lookup_insert_ne.
Qed.

(** X14. When [urlparse] accepts the URL of every row, the gathering returns
    one outcome per row, and the outcome at position [i] is the outcome of the
    pipeline of row [i], whichever world that pipeline is run in. *)
Theorem collect_one_outcome_per_row (self : ProcessManager.t)
    (remotes : nat → Remote) (w : World) :
  (∀ row, row ∈ ProcessManager.db self → url_parses (URL row) = true) →
  ∃ results,
    (ProcessManager.collect self remotes w).1 = Returned results
    ∧ length results = length (ProcessManager.db self)
    ∧ ∀ i row w',
        ProcessManager.db self !! i = Some row →
        Returned <$> results !! i
        = Some (upload_file (ProcessManager.uploader self) (remotes i) row w').1.
Proof.
  intros Hparse.
  destruct (collect_returns_all self remotes w) as (results & Hres & Hlen).
  { intros row Hrow. specialize (Hparse row Hrow).
    unfold url_parses, derive_filename in *.
    destruct (urllib.urlparse_path (URL row)); [by eexists|done]. }
  exists results. split; [done|]. split; [done|].
  intros i row w' Hrow. by apply (collect_keyed_by_row self remotes w).
Qed.

(** X17. The GET of every row whose URL [urlparse] accepts is made,
    whatever the other rows are: [gather] starts every pipeline, so that
    even when the URL of another row is rejected and [run] raises, the rows
    before and after it have been requested. *)
Theorem every_parsed_row_is_requested (self : ProcessManager.t)
    (remotes : nat → Remote) (w : World) (row : Row) :
  row ∈ ProcessManager.db self →
  url_parses (URL row) = true →
  HttpGet (URL row) ∈ trace (ProcessManager.run self remotes w).2.
Proof.
  intros Hrow Hparse. apply list_elem_of_lookup_1 in Hrow as [i Hi].
  assert (HttpGet (URL row)
          ∈ trace (ProcessManager.collect self remotes w).2) as Hcollect.
  { apply (collect_starts_every_pipeline self remotes w i row); [done|].
    intros w'. unfold url_parses in Hparse.
    destruct (urllib.urlparse_path (URL row)) as [p|e] eqn:Hpath; [|done].
    apply (upload_file_coroutine_first_turn _ _ _
             (new_filename (ProductId row) (MediaId row) (os_path.basename p))).
    unfold derive_filename. by rewrite Hpath. }
  rewrite run_after_collect.
  destruct (ProcessManager.collect self remotes w) as [[results|e] w'];
    [|done].
  cbn [snd log trace set_files] in *.
  apply elem_of_app. left. apply elem_of_app. by left.
Qed.

End batch_effects.

(** ** The further properties on concrete runs *)
Section further_scenarios.
Local Existing Instance urllib.lenient.
Local Existing Instance Scenario.plain_workbook.
Import FileUploader Scenario.

(** X2 on a concrete run: the outcome cases on a run whose first attempt times
    out and whose second is answered 200. *)
Lemma upload_file_outcome_cases_witness :
  derive_filename (URL row1) (ProductId row1) (MediaId row1)
  = Returned "1_9_a.png"
  ∧ ((upload_file (init config0) R_second row1 w0).1
     = Returned ("Success", "Uploaded successfully", "{'id': 42}")
     ↔ (∃ chunks, on_get R_second = GetResponse 200 chunks true)
       ∧ ∃ k, (k < max_retries (init config0))%nat
              ∧ (∀ i, (i < k)%nat → attempt_failed (on_post R_second i))
              ∧ on_post R_second k = PostResponse 200 "{'id': 42}").
Proof.
  split; [vm_compute; reflexivity|].
  destruct (upload_file_outcome_cases (init config0) R_second row1
              "1_9_a.png" w0) as (_ & Huploaded & _).
  - vm_compute; reflexivity.
  - apply Huploaded.
Defined.

(** X3 on a concrete run: the saved path on the first end-to-end run of the
    specification. *)
Lemma download_image_returns_saved_path_witness :
  derive_filename "http://x/a.png" 1 9 = Returned "1_9_a.png"
  ∧ (download_image (init config0) R_ok "http://x/a.png" 1 9 w_disk).1
    = Returned (Some ("images/1_9_a.png", "1_9_a.png"))
  ∧ on_get R_ok = GetResponse 200 [png] true
  ∧ files (download_image (init config0) R_ok "http://x/a.png" 1 9 w_disk).2
      !! "images/1_9_a.png"
    = Some png.
Proof.
  split; [vm_compute; reflexivity|]. split; [vm_compute; reflexivity|].
  split; [reflexivity|].
  destruct (download_image_returns_saved_path (init config0) R_ok
              "http://x/a.png" 1 9 "1_9_a.png" w_disk) as (_ & _ & Hfile).
  - vm_compute; reflexivity.
  - apply (Hfile "images/1_9_a.png" "1_9_a.png" [png]).
    + vm_compute; reflexivity.
    + reflexivity.
Defined.

(** X7 on a concrete run: the file name of a URL with a directory, parameters,
    a query and a fragment. *)
Lemma derived_file_in_download_directory_witness :
  derive_filename "http://x/a;b/c.png;v=1?q=/etc#f" 1 9 = Returned "1_9_c.png"
  ∧ pystr.contains (pystr.char "/") "1_9_c.png" = false
  ∧ pystr.contains (pystr.char "?") "1_9_c.png" = false
  ∧ pystr.contains (pystr.char "#") "1_9_c.png" = false.
Proof.
  split; [vm_compute; reflexivity|].
  destruct (derived_file_in_download_directory (init config0)
              "http://x/a;b/c.png;v=1?q=/etc#f" 1 9 "1_9_c.png")
    as (Hslash & Hquery & Hfragment & _).
  - vm_compute; reflexivity.
  - split; [exact Hslash|]. split; [exact Hquery|exact Hfragment].
Defined.

(** X8 on a concrete run: two URLs on different hosts whose paths end in the
    same base name. *)
Lemma same_name_iff_same_ids_and_basename_witness :
  urllib.urlparse_path "http://x/a.png" = Returned "/a.png"
  ∧ urllib.urlparse_path "http://y/old/a.png?v=2" = Returned "/old/a.png"
  ∧ derive_filename "http://x/a.png" 1 9
    = derive_filename "http://y/old/a.png?v=2" 1 9.
Proof.
  split; [vm_compute; reflexivity|]. split; [vm_compute; reflexivity|].
  apply (same_name_iff_same_ids_and_basename
           "http://x/a.png" "http://y/old/a.png?v=2" "/a.png" "/old/a.png"
           1 9 1 9).
  - vm_compute; reflexivity.
  - vm_compute; reflexivity.
  - split; [reflexivity|]. split; [reflexivity|]. vm_compute; reflexivity.
Defined.

(** X5 on a concrete run: the sleeping time of three failed attempts. *)
Lemma attempts_elapsed_witness :
  (∀ i, (i < 3)%nat → attempt_failed (on_post R_500 i))
  ∧ clock (attempts (init config0) R_500 (build_headers (init config0))
             form1 3 0 w0).2
    = 100 + (2 ^ 3 - 1).
Proof.
  assert (∀ i, (i < 3)%nat → attempt_failed (on_post R_500 i)) as Hfail.
  { intros i _. simpl. lia. }
  split; [exact Hfail|].
  destruct (attempts_elapsed (init config0) R_500
              (build_headers (init config0)) form1 w0) as [_ Hall].
  apply Hall. exact Hfail.
Defined.

(** X9 on a concrete run: a batch of two rows whose URLs parse. *)
Lemma run_ends_with_report_and_close_witness :
  (∀ row, row ∈ [row1; row2] → url_parses (URL row) = true)
  ∧ (ProcessManager.run (ProcessManager.init config0 [row1; row2])
       (λ _, R_500) w0).1
    = Returned ().
Proof.
  assert (∀ row, row ∈ [row1; row2] → url_parses (URL row) = true) as Hparse.
  { intros row Hin.
    repeat (apply elem_of_cons in Hin as [->|Hin]; [vm_compute; reflexivity|]).
    apply elem_of_nil in Hin. destruct Hin. }
  split; [exact Hparse|].
  destruct (run_ends_with_report_and_close
              (ProcessManager.init config0 [row1; row2]) (λ _, R_500) w0)
    as [Hreturns _].
  - exact Hparse.
  - exact Hreturns.
Defined.

(** X10 on a concrete run: a batch whose second row has a URL that does not
    parse. *)
Lemma run_aborts_without_report_or_close_witness :
  row_bad ∈ [row1; row_bad]
  ∧ url_parses (URL row_bad) = false
  ∧ ∃ e new,
      (ProcessManager.run (ProcessManager.init config0 [row1; row_bad])
         (λ _, R_ok) w0).1 = Raised e
      ∧ trace (ProcessManager.run (ProcessManager.init config0 [row1; row_bad])
                 (λ _, R_ok) w0).2 = trace w0 ++ new
      ∧ reports new = []
      ∧ DbClose ∉ new.
Proof.
  assert (row_bad ∈ [row1; row_bad]) as Hin.
  { apply elem_of_cons. right. apply elem_of_cons. left. reflexivity. }
  split; [exact Hin|]. split; [vm_compute; reflexivity|].
  apply (run_aborts_without_report_or_close
           (ProcessManager.init config0 [row1; row_bad]) (λ _, R_ok) w0 row_bad).
  - exact Hin.
  - vm_compute; reflexivity.
Defined.

(** X12 on a concrete run: a file that is neither the report nor a derived
    path of the batch. *)
Lemma run_leaves_other_paths_witness :
  "notes.txt" ≠ "output.xlsx"
  ∧ "notes.txt" ≠ "process.log"
  ∧ files w_disk !! "notes.txt" = Some [x01; x02]
  ∧ files (ProcessManager.run (ProcessManager.init config0 [row1])
             (λ _, R_ok) w_disk).2 !! "notes.txt"
    = Some [x01; x02].
Proof.
  split; [discriminate|]. split; [discriminate|].
  split; [vm_compute; reflexivity|].
  rewrite (run_leaves_other_paths (ProcessManager.init config0 [row1])
             (λ _, R_ok) w_disk "notes.txt").
  - vm_compute; reflexivity.
  - discriminate.
  - discriminate.
  - intros row name Hin Hname.
    apply elem_of_cons in Hin as [->|Hin].
    + vm_compute in Hname. injection Hname as <-. vm_compute. discriminate.
    + apply elem_of_nil in Hin. destruct Hin.
Defined.

(** X13 on a concrete run: a file that the batch overwrites. *)
Lemma run_keeps_files_witness :
  is_Some (files w_disk !! "images/1_9_a.png")
  ∧ is_Some (files (ProcessManager.run (ProcessManager.init config0 [row1])
                      (λ _, R_ok) w_disk).2 !! "images/1_9_a.png").
Proof.
  assert (is_Some (files w_disk !! "images/1_9_a.png")) as Hin.
  { exists [x00]. vm_compute; reflexivity. }
  split; [exact Hin|].
  apply (run_keeps_files (ProcessManager.init config0 [row1]) (λ _, R_ok)
           w_disk "images/1_9_a.png").
  exact Hin.
Defined.

(** X14 on a concrete run: a batch of two rows: one outcome per row, in row
    order. *)
Lemma collect_one_outcome_per_row_witness :
  (∀ row, row ∈ [row1; row2] → url_parses (URL row) = true)
  ∧ ∃ results,
      (ProcessManager.collect (ProcessManager.init config0 [row1; row2])
         (λ i, match i with O => R_404 | _ => R_ok end) w0).1
      = Returned results
      ∧ length results = 2%nat.
Proof.
  assert (∀ row, row ∈ [row1; row2] → url_parses (URL row) = true) as Hparse.
  { intros row Hin.
    repeat (apply elem_of_cons in Hin as [->|Hin]; [vm_compute; reflexivity|]).
    apply elem_of_nil in Hin. destruct Hin. }
  split; [exact Hparse|].
  destruct (collect_one_outcome_per_row
              (ProcessManager.init config0 [row1; row2])
              (λ i, match i with O => R_404 | _ => R_ok end) w0 Hparse)
    as (results & Hres & Hlen & _).
  exists results. split; [exact Hres|exact Hlen].
Defined.

(** Two rows whose every POST is answered 500: the two pipelines sleep at
    the same time, and the batch ends seven seconds after it began. *)
Example two_failing_rows_sleep_together :
  sleeps (trace (ProcessManager.run (ProcessManager.init config0 [row1; row2])
                   (λ _, R_500) w0).2)
  = [1; 1; 2; 2; 4; 4]
  ∧ clock (ProcessManager.run (ProcessManager.init config0 [row1; row2])
             (λ _, R_500) w0).2
    = 100 + 7.
Proof. vm_compute. by split. Qed.

(** X17 on a concrete run: the row after a row whose URL is rejected. *)
Lemma every_parsed_row_is_requested_witness :
  row1 ∈ [row_bad; row1]
  ∧ url_parses (URL row1) = true
  ∧ (ProcessManager.run (ProcessManager.init config0 [row_bad; row1])
       (λ _, R_ok) w0).1 = Raised ValueError
  ∧ HttpGet "http://x/a.png"
    ∈ trace (ProcessManager.run (ProcessManager.init config0 [row_bad; row1])
               (λ _, R_ok) w0).2.
Proof.
  assert (row1 ∈ [row_bad; row1]) as Hin.
  { apply elem_of_cons. right. apply elem_of_cons. left. reflexivity. }
  split; [exact Hin|]. split; [vm_compute; reflexivity|].
  split; [vm_compute; reflexivity|].
  apply (every_parsed_row_is_requested
           (ProcessManager.init config0 [row_bad; row1]) (λ _, R_ok) w0 row1).
  - exact Hin.
  - vm_compute; reflexivity.
Defined.

End further_scenarios.

(** ** URLs that cannot abort the batch, and bodies cut differently *)
Section robustness.
Context `{urllib.Validators}.
Import FileUploader.

Lemma all_lstrip (p q : ascii → bool) (s : string) :
  pystr.all p s = true → pystr.all p (pystr.lstrip q s) = true.
Proof.
  induction s as [|a s IH]; [done|]. cbn [pystr.lstrip].
  destruct (q a); [|done]. cbn [pystr.all]. intros [_ Hs]%andb_prop. auto.
Qed.

Lemma all_remove (p q : ascii → bool) (s : string) :
  pystr.all p s = true → pystr.all p (pystr.remove q s) = true.
Proof.
  induction s as [|a s IH]; [done|]. cbn [pystr.remove pystr.all].
  intros [Ha Hs]%andb_prop.
  destruct (q a); [auto|]. cbn [pystr.all]. by rewrite Ha, IH.
Qed.

Lemma split_scheme_rest_all (p : ascii → bool) (s : string) :
  pystr.all p s = true → pystr.all p (urllib.split_scheme s).2 = true.
Proof.
  intros Hs. unfold urllib.split_scheme.
  destruct (pystr.find _ s) as [[|i]|]; [done| |done].
  destruct s as [|c s']; [done|].
  destruct (_ && _); [|done]. cbn [snd]. by apply all_drop.
Qed.

Lemma splitnetloc_all (p : ascii → bool) (s : string) :
  pystr.all p s = true →
  pystr.all p (urllib.splitnetloc s).1 = true
  ∧ pystr.all p (urllib.splitnetloc s).2 = true.
Proof.
  intros Hs. unfold urllib.splitnetloc.
  destruct (pystr.find_from _ _ _); cbn [fst snd].
  - split; [by apply all_drop, all_take|by apply all_drop].
  - split; [by apply all_drop|done].
Qed.

(** A URL made of ASCII characters other than the square brackets is
    accepted by [urlsplit]. *)
Lemma urlsplit_accepts (url : string) :
  pystr.all (λ c, negb (pystr.char "[" c)) url = true →
  pystr.all (λ c, negb (pystr.char "]" c)) url = true →
  pystr.all pystr.is_ascii url = true →
  ∃ r, urllib.urlsplit url = Returned r.
Proof.
  intros Hopen Hclose Hascii.
  assert (∀ p, pystr.all p url = true →
    ∀ netloc rest,
      (if pystr.startswith "//"
            (urllib.split_scheme
               (pystr.remove urllib.unsafe_url_byte
                  (pystr.lstrip urllib.c0_control_or_space url))).2
       then urllib.splitnetloc
              (urllib.split_scheme
                 (pystr.remove urllib.unsafe_url_byte
                    (pystr.lstrip urllib.c0_control_or_space url))).2
       else ("", (urllib.split_scheme
                    (pystr.remove urllib.unsafe_url_byte
                       (pystr.lstrip urllib.c0_control_or_space url))).2))
      = (netloc, rest) →
      pystr.all p netloc = true) as Hnetloc.
  { intros p Hp netloc rest.
    pose proof (split_scheme_rest_all p _
                  (all_remove p urllib.unsafe_url_byte _
                     (all_lstrip p urllib.c0_control_or_space _ Hp))) as Hrest.
    destruct (pystr.startswith _ _).
    - destruct (splitnetloc_all p _ Hrest) as [Hn _].
      intros Heq. by rewrite Heq in Hn.
    - by intros [= <- _]. }
  unfold urllib.urlsplit.
  destruct (urllib.split_scheme _) as [scheme rest] eqn:Hscheme.
  cbn [snd] in Hnetloc.
  destruct (if pystr.startswith "//" rest then _ else _)
    as [netloc rest'] eqn:Hsplit.
  pose proof (Hnetloc _ Hopen netloc rest' eq_refl) as Hno_open.
  pose proof (Hnetloc _ Hclose netloc rest' eq_refl) as Hno_close.
  pose proof (Hnetloc _ Hascii netloc rest' eq_refl) as Hnet_ascii.
  apply contains_false in Hno_open, Hno_close.
  rewrite Hno_open, Hno_close. cbn [andb orb negb].
  destruct (urllib.split_once "#" rest') as [before_fragment fragment].
  destruct (urllib.split_once "?" before_fragment) as [path query].
  unfold urllib.checknetloc. rewrite Hnet_ascii, orb_true_r. by eexists.
Qed.

(** X15. A row whose URL is made of ASCII characters other than the square
    brackets always gets an outcome: its pipeline does not raise, whatever the
    network answers. *)
Theorem ascii_url_without_brackets_gets_outcome (self : t) (R : Remote)
    (row : Row) (w : World) :
  pystr.contains (pystr.char "[") (URL row) = false →
  pystr.contains (pystr.char "]") (URL row) = false →
  pystr.all pystr.is_ascii (URL row) = true →
  ∃ result : outcome, (upload_file self R row w).1 = Returned result.
Proof.
  intros Hopen%contains_false Hclose%contains_false Hascii.
  destruct (urlsplit_accepts (URL row) Hopen Hclose Hascii) as [r Hr].
  apply (upload_file_returns self R row
           (new_filename (ProductId row) (MediaId row)
              (os_path.basename
                 (if bool_decide (urllib.scheme r ∈ urllib.uses_params)
                     && pystr.contains (pystr.char ";") (urllib.path r)
                  then urllib.splitparams (urllib.path r)
                  else urllib.path r)))).
  unfold derive_filename, urllib.urlparse_path. rewrite Hr.
  by destruct (_ && _).
Qed.

(** X16. How the body of a response is cut into chunks does not matter: two
    pipelines of a row whose GETs answer the same status with bodies that
    concatenate to the same bytes, and whose POSTs are answered alike, end
    with the same outcome, the same files and the same posted forms. *)
Theorem chunking_is_irrelevant (self : t) (R1 R2 : Remote) (row : Row)
    (w : World) (code : Z) (chunks1 chunks2 : list bytes) (ok : bool) :
  on_get R1 = GetResponse code chunks1 ok →
  on_get R2 = GetResponse code chunks2 ok →
  concat chunks1 = concat chunks2 →
  (∀ i, on_post R1 i = on_post R2 i) →
  (upload_file self R1 row w).1 = (upload_file self R2 row w).1
  ∧ files (upload_file self R1 row w).2 = files (upload_file self R2 row w).2
  ∧ posts (trace (upload_file self R1 row w).2)
    = posts (trace (upload_file self R2 row w).2).
Proof.
  intros Hget1 Hget2 Hbody Hposts.
  assert (first_success R1 (max_retries self) 0
          = first_success R2 (max_retries self) 0) as Hfirst.
  { apply first_success_ext. intros i. by rewrite Hposts. }
  rewrite !upload_file_disk, !upload_file_trace, !posts_app.
  unfold disk_after, pipeline_events.
  destruct (derive_filename (URL row) (ProductId row) (MediaId row))
    as [name|e] eqn:Hname.
  2:{ by rewrite !(upload_file_raises _ _ _ e). }
  rewrite !(upload_file_run _ _ _ name) by done.
  rewrite Hget1, Hget2. destruct (code =? 200); [|done].
  rewrite Hbody. destruct ok.
  - rewrite !attempts_run, !posts_app, !posts_prepare_events.
    unfold loop_events. rewrite Hfirst.
    by destruct (first_success R2 (max_retries self) 0) as [[k text]|].
  - cbn [fst]. split; [done|]. split; [done|]. f_equal.
    unfold posts. cbn [omap list_omap]. by rewrite !omap_write_chunks.
Qed.

End robustness.

Section robustness_scenarios.
Local Existing Instance urllib.lenient.
Import FileUploader Scenario.

(** X15 on a concrete run: a URL of plain ASCII characters whose GET raises. *)
Lemma ascii_url_without_brackets_gets_outcome_witness :
  pystr.contains (pystr.char "[") (URL row1) = false
  ∧ pystr.contains (pystr.char "]") (URL row1) = false
  ∧ pystr.all pystr.is_ascii (URL row1) = true
  ∧ ∃ result : outcome,
      (upload_file (init config0)
         {| on_get := GetRaised; on_post := λ _, PostRaised |} row1 w0).1
      = Returned result.
Proof.
  split; [vm_compute; reflexivity|]. split; [vm_compute; reflexivity|].
  split; [vm_compute; reflexivity|].
  apply (ascii_url_without_brackets_gets_outcome (init config0)
           {| on_get := GetRaised; on_post := λ _, PostRaised |} row1 w0).
  - vm_compute; reflexivity.
  - vm_compute; reflexivity.
  - vm_compute; reflexivity.
Defined.

(** X16 on a concrete run: the same four bytes served in one chunk and in two. *)
Lemma chunking_is_irrelevant_witness :
  on_get R_ok = GetResponse 200 [png] true
  ∧ concat [png] = concat [[x89; x50]; [x4e; x47]]
  ∧ files (upload_file (init config0) R_ok row1 w0).2
    = files (upload_file (init config0)
               {| on_get := GetResponse 200 [[x89; x50]; [x4e; x47]] true;
                  on_post := on_post R_ok |} row1 w0).2.
Proof.
  split; [reflexivity|]. split; [reflexivity|].
  destruct (chunking_is_irrelevant (init config0) R_ok
              {| on_get := GetResponse 200 [[x89; x50]; [x4e; x47]] true;
                 on_post := on_post R_ok |}
              row1 w0 200 [png] [[x89; x50]; [x4e; x47]] true)
    as (_ & Hfiles & _).
  - reflexivity.
  - reflexivity.
  - reflexivity.
  - intros i. reflexivity.
  - exact Hfiles.
Defined.

End robustness_scenarios.
